(** * kiss-tnc: the KISS framing codec of [src/index.js]

    A shallow embedding of the two Transform streams of the package,
    [KISSReceiver] and [KISSSender], together with the helpers
    [kissEscape] and [getCommandBuilder], and the properties that the
    specification states about them.

    Conventions of the embedding.
    - A [Buffer] and the array obtained from it by [Array.from] are both
      [list byte]: every element is a number in 0..255.
    - A JavaScript [number] is an exact rational, [NaN] or an infinity.
      Comparisons, truthiness and the conversion to a byte are those of
      the double with that value. The one arithmetic operation of the
      package, the division of a time by 10, is exact here and rounded in
      the code: the two agree, in what the code uses of the quotient, on
      the integers of magnitude below 2^53, and the properties that rest
      on the division are stated for these.
    - [this.push(x)] appends [x] to an explicit output log.
    - [throw new Error(msg)] is the [Throw msg] result. *)

From Equations Require Import Equations.
From Stdlib Require Import Strings.Byte Strings.Ascii Strings.String.
From Stdlib Require Import List Arith Lia ZArith NArith QArith Bool.
Import ListNotations.

Local Open Scope nat_scope.

(** ** Wire constants (index.js, lines 3-6) *)

Definition FEND : byte := xc0.   (* 192 *)
Definition FESC : byte := xdb.   (* 219 *)
Definition TFEND : byte := xdc.  (* 220 *)
Definition TFESC : byte := xdd.  (* 221 *)

(** [replacementMap = { [TFEND]: FEND, [TFESC]: FESC }]; a key that is not
    in the object, and the key [undefined], give [undefined]. *)
Definition replacementMap (key : option byte) : option byte :=
  match key with
  | Some k =>
      if Byte.eqb k TFEND then Some FEND
      else if Byte.eqb k TFESC then Some FESC
      else None
  | None => None
  end.

(** ** JavaScript array primitives *)

Module JsArray.

(** [arr.indexOf(x)]: [None] stands for -1. *)
Fixpoint indexOf (x : byte) (arr : list byte) : option nat :=
  match arr with
  | [] => None
  | y :: rest =>
      if Byte.eqb y x then Some 0
      else option_map S (indexOf x rest)
  end.

(** [arr[i]]: [None] stands for [undefined]. *)
Definition at_ (arr : list byte) (i : nat) : option byte := nth_error arr i.

(** [arr.slice(from)] and [arr.slice(0, to)]. *)
Definition slice_from (arr : list byte) (from : nat) : list byte := skipn from arr.
Definition slice_to (arr : list byte) (to : nat) : list byte := firstn to arr.

(** [arr.splice(start, deleteCount, ...items)], as the array it leaves. *)
Definition splice (arr : list byte) (start deleteCount : nat) (items : list byte)
  : list byte :=
  firstn start arr ++ items ++ skipn (start + deleteCount) arr.

End JsArray.
Import JsArray.

(** ** kissEscape (index.js, lines 43-61) *)

(** [(current === FEND) && TFEND]: [false] is [None]. *)
Definition foundEnd (current : option byte) : option byte :=
  match current with
  | Some c => if Byte.eqb c FEND then Some TFEND else None
  | None => None
  end.

(** [(current === FESC) && TFESC]. *)
Definition foundEscape (current : option byte) : option byte :=
  match current with
  | Some c => if Byte.eqb c FESC then Some TFESC else None
  | None => None
  end.

(** [a || b] on values that are [false] or a non-zero number. *)
Definition or_else (a b : option byte) : option byte :=
  match a with
  | Some _ => a
  | None => b
  end.

Lemma splice_length (arr : list byte) (start del : nat) (items : list byte) :
  length (splice arr start del items)
  = Nat.min start (length arr) + length items + (length arr - (start + del)).
Proof.
  unfold splice. rewrite !length_app, length_firstn, length_skipn. lia.
Qed.

(** The [while (i < buf.length)] loop. Each round either replaces [buf[i]] by
    two bytes and moves [i] two places, or moves [i] one place: the distance
    from [i] to the end of [buf] goes down by one. *)
Equations? kissEscape_loop (buf : list byte) (i : nat) : list byte
  by wf (length buf - i) lt :=
  kissEscape_loop buf i with lt_dec i (length buf) := {
    | right _ := buf
    | left _ with or_else (foundEnd (at_ buf i)) (foundEscape (at_ buf i)) := {
        | Some code := kissEscape_loop (splice buf i 1 [FESC; code]) (i + 2)
        | None := kissEscape_loop buf (i + 1) } }.
Proof.
  - rewrite splice_length. simpl. lia.
  - lia.
Qed.

(** The chunk written to the sender: a string or a Buffer. *)
Inductive chunk : Type :=
| ChunkString (s : String.string)
| ChunkBuffer (b : list byte).

(** [Buffer.from(s)] for a string: its bytes (a [string] here is the UTF-8
    encoding already). *)
Definition Buffer_from_string (s : String.string) : list byte :=
  String.list_byte_of_string s.

Definition chunk_bytes (c : chunk) : list byte :=
  match c with
  | ChunkString s => Buffer_from_string s
  | ChunkBuffer b => b
  end.

Definition kissEscape (c : chunk) : list byte :=
  kissEscape_loop (chunk_bytes c) 0.

(** ** KISSReceiver (index.js, lines 68-179) *)

(** What a receiver pushes downstream: a Buffer, or in object mode the record
    [{ portIndex, data }]. *)
Inductive emitted : Type :=
| EmitBuffer (data : list byte)
| EmitObject (portIndex : N) (data : list byte).

Record KISSReceiver : Type := mkReceiver {
  readableObjectMode : bool;
  emitCommandByte : bool;
  unterminatedMessage : option (list byte)  (* [None]: undefined or null *)
}.

Record receiverOpts : Type := mkReceiverOpts {
  opt_emitCommandByte : bool;
  opt_emitObject : bool
}.

(** The constructor, lines 77-83. *)
Definition newReceiver (opts : receiverOpts) : KISSReceiver :=
  {| readableObjectMode := opt_emitObject opts;
     emitCommandByte := opt_emitCommandByte opts;
     unterminatedMessage := None |}.

(** The loop of lines 94-107:
    [while (escapeIndex !== -1) { ... content.splice(...spliceArgs); ... }].
    The splice deletes at least one element and inserts at most one, and
    when it deletes only one (the marker is the last element) the
    replacement is undefined and nothing is inserted. *)
Definition spliceItems (replacement : option byte) : list byte :=
  match replacement with
  | Some r => [r]
  | None => []
  end.

Lemma indexOf_lt (x : byte) (arr : list byte) (i : nat) :
  indexOf x arr = Some i -> i < length arr.
Proof.
  revert i. induction arr as [|y rest IH]; intros i; simpl; [discriminate|].
  destruct (Byte.eqb y x).
  - intros [= <-]. lia.
  - destruct (indexOf x rest) as [j|]; simpl; [|discriminate].
    intros [= <-]. specialize (IH j eq_refl). lia.
Qed.

Lemma replacementMap_at_end (arr : list byte) (i : nat) :
  length arr <= i -> replacementMap (at_ arr i) = None.
Proof.
  intros H. unfold at_. apply nth_error_None in H. now rewrite H.
Qed.

Lemma unescape_splice_shorter (content : list byte) (escapeIndex : nat) :
  indexOf FESC content = Some escapeIndex ->
  length (splice content escapeIndex 2
            (spliceItems (replacementMap (at_ content (escapeIndex + 1)))))
  < length content.
Proof.
  intros e. apply indexOf_lt in e. rewrite splice_length.
  destruct (le_lt_dec (length content) (escapeIndex + 1)) as [Hend|Hin].
  - rewrite (replacementMap_at_end _ _ Hend). simpl. lia.
  - destruct (replacementMap _); simpl; lia.
Qed.

(** Case analysis that keeps the equation [x = y]. *)
Definition inspect {A : Type} (x : A) : { y : A | x = y } := exist _ x eq_refl.

Equations? unescape_loop (content : list byte) : list byte
  by wf (length content) lt :=
  unescape_loop content with inspect (indexOf FESC content) := {
    | exist _ None _ := content
    | exist _ (Some escapeIndex) _ :=
        unescape_loop
          (splice content escapeIndex 2
             (spliceItems (replacementMap (at_ content (escapeIndex + 1))))) }.
Proof. now apply unescape_splice_shorter. Qed.

(** [commandByte >> 4], where [commandByte] may be undefined (an empty
    message): [undefined >> 4] is 0. *)
Definition shr4 (commandByte : option byte) : N :=
  match commandByte with
  | Some c => N.shiftr (Byte.to_N c) 4
  | None => 0%N
  end.

(** [Buffer.from([commandByte, ...content])]: an undefined element is
    written as 0. *)
Definition withCommandByte (commandByte : option byte) (content : list byte)
  : list byte :=
  match commandByte with
  | Some c => c :: content
  | None => x00 :: content
  end.

Definition interpretMessage (this : KISSReceiver) (message : list byte) : emitted :=
  let commandByte := hd_error message in
  let content := unescape_loop (tl message) in
  if readableObjectMode this then
    EmitObject (shr4 commandByte) content
  else if emitCommandByte this then
    EmitBuffer (withCommandByte commandByte content)
  else
    EmitBuffer content.

(** The body of [while (fendIndex !== -1) { ... }], lines 137-148, for the
    index found: what it leaves in [this.unterminatedMessage] and in
    [messages]. [received] itself becomes [received.slice(fendIndex + 1)]. *)
Definition transform_body (received : list byte) (fendIndex : nat)
    (unterminated : option (list byte)) (messages : list (list byte))
  : option (list byte) * list (list byte) :=
  let nextMessage := slice_to received fendIndex in
  if 0 <? length nextMessage then
    match unterminated with
    | Some u => (None, messages ++ [u ++ nextMessage])
    | None => (unterminated, messages ++ [nextMessage])
    end
  else (unterminated, messages).

Lemma slice_from_length (arr : list byte) (i : nat) :
  i < length arr -> length (slice_from arr (i + 1)) < length arr.
Proof. intros H. unfold slice_from. rewrite length_skipn. lia. Qed.

Equations? transform_loop (received : list byte)
    (unterminated : option (list byte)) (messages : list (list byte))
  : list byte * (option (list byte) * list (list byte))
  by wf (length received) lt :=
  transform_loop received unterminated messages
    with inspect (indexOf FEND received) := {
    | exist _ None _ := (received, (unterminated, messages))
    | exist _ (Some fendIndex) _ :=
        transform_loop (slice_from received (fendIndex + 1))
          (fst (transform_body received fendIndex unterminated messages))
          (snd (transform_body received fendIndex unterminated messages)) }.
Proof. apply slice_from_length. eapply indexOf_lt; eassumption. Qed.

(** Lines 128-134, [if (received[0] === FEND && this.unterminatedMessage)]:
    what is left in [this.unterminatedMessage] and in [messages]. *)
Definition transform_start (received : list byte)
    (unterminated : option (list byte))
  : option (list byte) * list (list byte) :=
  match at_ received 0, unterminated with
  | Some b, Some u => if Byte.eqb b FEND then (None, [u]) else (Some u, [])
  | _, u => (u, [])
  end.

(** [_transform(chunk, encoding, next)], lines 123-162: the receiver it
    leaves and the values it pushes, in order. *)
Definition receiver_transform (this : KISSReceiver) (chunk : list byte)
  : KISSReceiver * list emitted :=
  let received := chunk in
  let start := transform_start received (unterminatedMessage this) in
  let '(received, (unterminated, messages)) :=
    transform_loop received (fst start) (snd start) in
  let unterminated :=
    if 0 <? length received then Some received else unterminated in
  ({| readableObjectMode := readableObjectMode this;
      emitCommandByte := emitCommandByte this;
      unterminatedMessage := unterminated |},
   map (interpretMessage this) messages).

(** [_flush(done)], lines 164-178: the values it pushes. *)
Definition receiver_flush (this : KISSReceiver) : list emitted :=
  match unterminatedMessage this with
  | Some u =>
      let portIndex := shr4 (at_ u 0) in
      if readableObjectMode this then
        [EmitObject portIndex (slice_from u 1)]
      else if emitCommandByte this then
        [EmitBuffer u]
      else
        [EmitBuffer (slice_from u 1)]
  | None => []
  end.

(** A receiver fed a sequence of chunks, one [_transform] call each: the
    receiver it ends in and everything pushed, in order. *)
Fixpoint feed (this : KISSReceiver) (chunks : list (list byte))
  : KISSReceiver * list emitted :=
  match chunks with
  | [] => (this, [])
  | c :: rest =>
      let '(this1, out1) := receiver_transform this c in
      let '(this2, out2) := feed this1 rest in
      (this2, out1 ++ out2)
  end.

(** The stream ends after the chunks: [_flush] runs last. *)
Definition feed_end (this : KISSReceiver) (chunks : list (list byte))
  : list emitted :=
  let '(this1, out) := feed this chunks in
  out ++ receiver_flush this1.

(** ** JavaScript numbers and the values of the sender's options *)

Inductive number : Type :=
| Num (q : Q)
| NaN
| Infinity (negative : bool).

Definition num_of_Z (z : Z) : number := Num (inject_Z z).
Definition num_of_byte (b : byte) : number := num_of_Z (Z.of_N (Byte.to_N b)).

(** [!!n] *)
Definition number_truthy (n : number) : bool :=
  match n with
  | Num q => negb (Qeq_bool q 0)
  | NaN => false
  | Infinity _ => true
  end.

(** [Number.isInteger(n)] *)
Definition Number_isInteger (n : number) : bool :=
  match n with
  | Num q => (Qnum q mod Zpos (Qden q) =? 0)%Z
  | _ => false
  end.

(** [a < b]; [a > b] is [number_lt b a]. A comparison with NaN is false. *)
Definition number_lt (a b : number) : bool :=
  match a, b with
  | Num p, Num q => negb (Qle_bool q p)
  | Num _, Infinity neg => negb neg
  | Infinity neg, Num _ => neg
  | Infinity n1, Infinity n2 => n1 && negb n2
  | _, _ => false
  end.

(** [n / 10], as the exact quotient. The code divides doubles: for an
    integer [n] with |n| < 2^53 the double quotient has the integer part of
    the exact one and is zero only when [n] is, and these two are all that
    the code uses of it. The properties below that rest on this division
    are stated for such integers only; beyond them (2^56, the smallest
    subnormal) the rounded quotient differs. *)
Definition number_div10 (n : number) : number :=
  match n with
  | Num q => Num (q / inject_Z 10)
  | _ => n
  end.

(** The byte with value [z] modulo 256. *)
Definition byte_of_Z (z : Z) : byte :=
  match Byte.of_N (Z.to_N (z mod 256)) with
  | Some b => b
  | None => x00
  end.

(** What [Buffer.from([n])] stores for a number: the integer part of [n]
    modulo 256, and 0 for NaN and the infinities. *)
Definition ToUint8 (n : number) : byte :=
  match n with
  | Num q => byte_of_Z (Z.quot (Qnum q) (Zpos (Qden q)))
  | _ => x00
  end.

(** The values an option of the sender can hold, by [types/index.d.ts]:
    a boolean ([fullDuplex]), a number, a string or an array of numbers
    ([hardware]); and the Buffer that the constructor makes of [hardware]. *)
Inductive value : Type :=
| VBool (b : bool)
| VNum (n : number)
| VStr (s : String.string)
| VArr (a : list number)
| VBuf (b : list byte).

(** [!!v]: an array and a Buffer are objects, hence truthy. *)
Definition truthy (v : value) : bool :=
  match v with
  | VBool b => b
  | VNum n => number_truthy n
  | VStr s => negb (String.eqb s String.EmptyString)
  | VArr _ => true
  | VBuf _ => true
  end.

(** [v / 10]. The options that are divided are numbers; a boolean is
    converted as JavaScript does, and the conversion of a string or an
    object, which the declared types exclude, is not modelled (NaN). *)
Definition div10 (v : value) : value :=
  match v with
  | VNum n => VNum (number_div10 n)
  | VBool b => VNum (number_div10 (num_of_Z (if b then 1 else 0)))
  | _ => VNum NaN
  end.

(** An element of an array given to [Buffer.from], as the byte stored. The
    elements that the code builds are numbers and, for [fullDuplex], a
    boolean; the conversion of a string or an array to a number, which the
    declared option types never lead to, is not modelled (0). *)
Definition element_ToUint8 (v : value) : byte :=
  match v with
  | VNum n => ToUint8 n
  | VBool b => if b then x01 else x00
  | _ => x00
  end.

(** [Buffer.from(array)] *)
Definition Buffer_from_array (a : list value) : list byte :=
  map element_ToUint8 a.

(** [Buffer.from(v)] for the [hardware] option: a string or an array. *)
Definition Buffer_from (v : value) : list byte :=
  match v with
  | VStr s => Buffer_from_string s
  | VArr a => map ToUint8 a
  | VBuf b => b
  | _ => []
  end.

(** [Array.from(buffer)] as an array of values. *)
Definition Array_from (b : list byte) : list value :=
  map (fun x => VNum (num_of_byte x)) b.

(** ** getCommandBuilder (index.js, lines 13-36) *)

Definition ports : String.string := "0123456789ABCDEF"%string.

(** [ports[portIndex]]: a character, or undefined when [portIndex] is not an
    index of the string. *)
Definition ports_at (portIndex : number) : option ascii :=
  match portIndex with
  | Num q =>
      if Number_isInteger portIndex && negb (number_lt portIndex (num_of_Z 0))
      then String.get (Z.to_nat (Qnum q / Zpos (Qden q))) ports
      else None
  | _ => None
  end.

(** The template string [`${pidx}d`] for a one-character suffix [d]. *)
Definition template (pidx : option ascii) (d : ascii) : String.string :=
  match pidx with
  | Some c => String.String c (String.String d String.EmptyString)
  | None => String.append "undefined"%string (String.String d String.EmptyString)
  end.

Definition hexDigit (c : ascii) : option N :=
  let n := N_of_ascii c in
  if (48 <=? n)%N && (n <=? 57)%N then Some (n - 48)%N
  else if (65 <=? n)%N && (n <=? 70)%N then Some (n - 55)%N
  else if (97 <=? n)%N && (n <=? 102)%N then Some (n - 87)%N
  else None.

Fixpoint parseHex (s : String.string) (acc : option N) : option N :=
  match s with
  | String.EmptyString => acc
  | String.String c rest =>
      match hexDigit c with
      | Some d =>
          parseHex rest
            (Some (16 * match acc with Some a => a | None => 0 end + d)%N)
      | None => acc
      end
  end.

(** [parseInt(s, 16)]: the value of the longest prefix of hexadecimal
    digits, NaN when there is none. (Leading blanks, a sign and a [0x]
    prefix do not occur in the strings built here.) *)
Definition parseInt16 (s : String.string) : number :=
  match parseHex s None with
  | Some n => num_of_Z (Z.of_N n)
  | None => NaN
  end.

Inductive property : Type :=
| fullDuplex | hardware | persistence | slotTime | txDelay | txTail.

Definition property_eqb (a b : property) : bool :=
  match a, b with
  | fullDuplex, fullDuplex | hardware, hardware | persistence, persistence
  | slotTime, slotTime | txDelay, txDelay | txTail, txTail => true
  | _, _ => false
  end.

(** The object [commandBytes] of lines 22-29, indexed by [command]. *)
Definition commandBytes (pidx : option ascii) (command : property) : number :=
  match command with
  | fullDuplex => parseInt16 (template pidx "5"%char)
  | hardware => parseInt16 (template pidx "6"%char)
  | persistence => parseInt16 (template pidx "2"%char)
  | slotTime => parseInt16 (template pidx "3"%char)
  | txDelay => parseInt16 (template pidx "1"%char)
  | txTail => parseInt16 (template pidx "4"%char)
  end.

(** [getCommandBuilder(portIndex)(command, value)] *)
Definition getCommandBuilder (portIndex : number) (command : property)
    (v : value) : list byte :=
  let pidx := ports_at portIndex in
  let values :=
    match v with
    | VBuf b => Array_from b   (* [value instanceof Buffer] *)
    | _ => [v]
    end in
  Buffer_from_array
    ([VNum (num_of_byte FEND); VNum (commandBytes pidx command)]
       ++ values ++ [VNum (num_of_byte FEND)]).

(** ** KISSSender (index.js, lines 184-255) *)

(** The [hardware] option: [string | number[]]. *)
Inductive hardwareOption : Type :=
| HardwareString (s : String.string)
| HardwareArray (a : list number).

(** The options object, typed as in [types/index.d.ts]; [None] is a
    property the object does not have. *)
Record senderOpts : Type := mkSenderOpts {
  opt_portIndex : option number;
  opt_fullDuplex : option bool;
  opt_hardware : option hardwareOption;
  opt_persistence : option number;
  opt_slotTime : option number;
  opt_txDelay : option number;
  opt_txTail : option number
}.

(** [Object.hasOwn(opts, property)] and [opts[property]] in one lookup. *)
Definition opts_get (opts : senderOpts) (p : property) : option value :=
  match p with
  | fullDuplex => option_map VBool (opt_fullDuplex opts)
  | hardware =>
      option_map
        (fun h => match h with
                  | HardwareString s => VStr s
                  | HardwareArray a => VArr a
                  end)
        (opt_hardware opts)
  | persistence => option_map VNum (opt_persistence opts)
  | slotTime => option_map VNum (opt_slotTime opts)
  | txDelay => option_map VNum (opt_txDelay opts)
  | txTail => option_map VNum (opt_txTail opts)
  end.

Inductive result (A : Type) : Type :=
| Ok (a : A)
| Throw (message : String.string).
Arguments Ok {A} a.
Arguments Throw {A} message.

Record KISSSender : Type := mkSender {
  portIndex : number;
  dataStart : list byte;
  dataEnd : list byte;
  props : property -> option value;   (* [this[property]] *)
  pushed : list (list byte)           (* the output of [this.push] *)
}.

Definition set_prop (this : KISSSender) (p : property) (v : value) : KISSSender :=
  {| portIndex := portIndex this;
     dataStart := dataStart this;
     dataEnd := dataEnd this;
     props := fun p' => if property_eqb p' p then Some v else props this p';
     pushed := pushed this |}.

Definition push (this : KISSSender) (frame : list byte) : KISSSender :=
  {| portIndex := portIndex this;
     dataStart := dataStart this;
     dataEnd := dataEnd this;
     props := props this;
     pushed := pushed this ++ [frame] |}.

Definition properties : list property :=
  [fullDuplex; hardware; persistence; slotTime; txDelay; txTail].

(** [['slotTime', 'txDelay', 'txTail'].indexOf(property) !== -1] *)
Definition is_time (p : property) : bool :=
  match p with
  | slotTime | txDelay | txTail => true
  | _ => false
  end.

(** What lines 220-228 leave in [this[property]] for the option value [v]:
    a time is divided by 10, [hardware] becomes a Buffer, and a falsy one of
    these becomes [false]. *)
Definition stored (p : property) (v : value) : value :=
  let v :=
    if is_time p
    then (if truthy v then div10 v else VBool false)
    else v in
  if property_eqb p hardware
  then (if truthy v then VBuf (Buffer_from v) else VBool false)
  else v.

(** The callback of [properties.forEach], lines 215-233. *)
Definition forEach_body (opts : senderOpts)
    (outboundCommand : property -> value -> list byte)
    (this : KISSSender) (p : property) : KISSSender :=
  match opts_get opts p with
  | None => this
  | Some v =>
      let this := set_prop this p (stored p v) in
      if truthy (stored p v)
      then push this (outboundCommand p (stored p v))
      else this
  end.

(** [opts.portIndex || 0]: an absent or falsy port index is 0. *)
Definition or_zero (n : option number) : number :=
  match n with
  | Some n => if number_truthy n then n else num_of_Z 0
  | None => num_of_Z 0
  end.

(** The constructor, lines 196-234. *)
Definition newSender (opts : senderOpts) : result KISSSender :=
  let portIndex := or_zero (opt_portIndex opts) in
  if negb (Number_isInteger portIndex) then
    Throw "Cannot create a KISS sending Stream without a portIndex config property"
  else if number_lt portIndex (num_of_Z 0) || number_lt (num_of_Z 15) portIndex then
    Throw "A KISS sending Stream requires a portIndex config property between 0 and 15 inclusive"
  else
    let this :=
      {| portIndex := portIndex;
         dataStart :=
           Buffer_from_array
             [VNum (num_of_byte FEND);
              VNum (parseInt16 (template (ports_at portIndex) "0"%char))];
         dataEnd := Buffer_from_array [VNum (num_of_byte FEND)];
         props := fun _ => None;
         pushed := [] |} in
    let outboundCommand := getCommandBuilder portIndex in
    Ok (fold_left (forEach_body opts outboundCommand) properties this).

(** [_transform(chunk, encoding, next)], lines 241-247. *)
Definition sender_transform (this : KISSSender) (c : chunk) : KISSSender :=
  let escapedChunk := kissEscape c in
  let frame := dataStart this ++ escapedChunk ++ dataEnd this in
  push this frame.

(** [_flush(done)], lines 249-254. *)
Definition sender_flush (this : KISSSender) : KISSSender :=
  let exitKissFrame :=
    Buffer_from_array
      [VNum (num_of_byte FEND); VNum (num_of_Z 255); VNum (num_of_byte FEND)] in
  push this exitKissFrame.

Definition noOpts : senderOpts :=
  mkSenderOpts None None None None None None None.

Definition pushed_of (r : result KISSSender) : option (list (list byte)) :=
  match r with
  | Ok this => Some (pushed this)
  | Throw _ => None
  end.

(** ** Definitions used to state the properties *)

(** The escape of one byte, in the words of the specification: the boundary
    marker and the escape marker become two bytes, every other byte passes. *)
Definition escape_byte (c : byte) : list byte :=
  if Byte.eqb c FEND then [FESC; TFEND]
  else if Byte.eqb c FESC then [FESC; TFESC]
  else [c].

Definition escape (b : list byte) : list byte := flat_map escape_byte b.

(** The decoder in the words of the specification, read left to right: an
    escape marker followed by the escape-of-marker byte is the marker,
    followed by the escape-of-escape byte is the escape marker, followed by
    anything else is dropped with that byte; a marker at the very end, of
    which the specification says nothing, is dropped as the code does. *)
Fixpoint unescape (b : list byte) : list byte :=
  match b with
  | [] => []
  | c :: rest =>
      if Byte.eqb c FESC then
        match rest with
        | [] => []
        | d :: rest' =>
            if Byte.eqb d TFEND then FEND :: unescape rest'
            else if Byte.eqb d TFESC then FESC :: unescape rest'
            else unescape rest'
        end
      else c :: unescape rest
  end.

(** Whether the content, read left to right in the same way, holds an
    escaped escape marker, the pair 0xDB 0xDD. *)
Fixpoint has_escaped_FESC (b : list byte) : bool :=
  match b with
  | [] => false
  | c :: rest =>
      if Byte.eqb c FESC then
        match rest with
        | [] => false
        | d :: rest' => Byte.eqb d TFESC || has_escaped_FESC rest'
        end
      else has_escaped_FESC rest
  end.

(** What closing the run [m] does to the partial buffer and to the messages
    found so far. *)
Definition run_closed (m : list byte) (unterminated : option (list byte))
    (messages : list (list byte)) : option (list byte) * list (list byte) :=
  match m with
  | [] => (unterminated, messages)
  | _ :: _ =>
      match unterminated with
      | Some u => (None, messages ++ [u ++ m])
      | None => (None, messages ++ [m])
      end
  end.

(** The integer value of a port index. *)
Definition portIndex_Z (n : number) : Z :=
  match n with
  | Num q => (Qnum q / Zpos (Qden q))%Z
  | _ => 0%Z
  end.

(** The two tests of lines 201-207, as the condition to go on. *)
Definition valid_portIndex (n : number) : bool :=
  Number_isInteger n
  && negb (number_lt n (num_of_Z 0) || number_lt (num_of_Z 15) n).

(** The command kinds of the protocol (low nibble of the command byte). *)
Definition commandKind (p : property) : Z :=
  match p with
  | txDelay => 1
  | persistence => 2
  | slotTime => 3
  | txTail => 4
  | fullDuplex => 5
  | hardware => 6
  end.

(** The bytes that a value contributes to an initialization frame. *)
Definition value_bytes (v : value) : list byte :=
  match v with
  | VBuf b => b
  | _ => [element_ToUint8 v]
  end.

(** The command byte of a valid port for a command. *)
Definition commandByte (n : number) (command : property) : byte :=
  byte_of_Z (Z.lor (Z.shiftl (portIndex_Z n) 4) (commandKind command)).

(** The command byte of a data frame, [(portIndex << 4) | 0]. *)
Definition dataCommandByte (n : number) : byte :=
  byte_of_Z (Z.lor (Z.shiftl (portIndex_Z n) 4) 0).

(** The frame that the [forEach] callback pushes for one property: none when
    the option is absent or what is stored for it is falsy. *)
Definition initFrame (opts : senderOpts)
    (outboundCommand : property -> value -> list byte) (p : property)
  : list (list byte) :=
  match opts_get opts p with
  | None => []
  | Some v =>
      if truthy (stored p v) then [outboundCommand p (stored p v)] else []
  end.

(** The senders that exist: one that the constructor returned, and one that
    has taken a write since. *)
Inductive constructed : KISSSender -> Prop :=
| constructed_new (opts : senderOpts) (this : KISSSender) :
    newSender opts = Ok this -> constructed this
| constructed_write (this : KISSSender) (c : chunk) :
    constructed this -> constructed (sender_transform this c).

(** The receiver with the default options. *)
Definition defaultReceiver : KISSReceiver :=
  newReceiver (mkReceiverOpts false false).

(** The bytes of ['hello']. *)
Definition hello : list byte := Buffer_from_string "hello".

(** The options with a port index only. *)
Definition portOpts (p : Z) : senderOpts :=
  mkSenderOpts (Some (num_of_Z p)) None None None None None None.

(** The value given for one of the three time options [slotTime],
    [txDelay] and [txTail]; no other property is a time. *)
Definition timeField (opts : senderOpts) (t : property) : option number :=
  match t with
  | slotTime => opt_slotTime opts
  | txDelay => opt_txDelay opts
  | txTail => opt_txTail opts
  | _ => None
  end.

(** The integers that a double holds exactly, |v| < 2^53. *)
Definition safe_integer (v : Z) : Prop := (- 2 ^ 53 < v < 2 ^ 53)%Z.

(** The two bytes that the protocol reserves. *)
Definition reserved (c : byte) : bool := Byte.eqb c FEND || Byte.eqb c FESC.

(** A partial buffer as [_transform] leaves it: none, or a run that is not
    empty and holds no marker. *)
Definition buffer_ok (unterminated : option (list byte)) : Prop :=
  match unterminated with
  | None => True
  | Some u => u <> [] /\ ~ In FEND u
  end.

(** The receiver with its partial buffer set. *)
Definition with_buffer (this : KISSReceiver) (u : option (list byte))
  : KISSReceiver :=
  {| readableObjectMode := readableObjectMode this;
     emitCommandByte := emitCommandByte this;
     unterminatedMessage := u |}.

(** The frame of a write of the bytes [b] by a sender of port index [n]. *)
Definition dataFrame (n : number) (b : list byte) : list byte :=
  [FEND; dataCommandByte n] ++ escape b ++ [FEND].

(** A sender that takes the writes [chunks], one [_transform] call each. *)
Definition sender_writes (this : KISSSender) (chunks : list chunk) : KISSSender :=
  fold_left sender_transform chunks this.

(** * Properties *)

(** ** Bytes and arrays *)

Lemma byte_eqb_spec (x y : byte) : reflect (x = y) (Byte.eqb x y).
Proof.
  destruct (Byte.eqb x y) eqn:E; constructor.
  - now apply Byte.byte_dec_bl.
  - now apply Byte.eqb_false.
Qed.

Lemma byte_eqb_refl (x : byte) : Byte.eqb x x = true.
Proof. now apply Byte.byte_dec_lb. Qed.

Lemma byte_eqb_neq (x y : byte) : x <> y -> Byte.eqb x y = false.
Proof. intros H. now destruct (byte_eqb_spec x y). Qed.

Section IndexOf.

Variable x : byte.

Lemma indexOf_None (arr : list byte) :
  indexOf x arr = None <-> ~ In x arr.
Proof.
  induction arr as [|y rest IH]; simpl.
  - tauto.
  - destruct (byte_eqb_spec y x) as [->|Hne].
    + split; [discriminate | intros H; exfalso; apply H; now left].
    + destruct (indexOf x rest); simpl.
      * split; [discriminate|]. intros H. destruct IH as [_ IH].
        assert (Some n = None) by (apply IH; intros Hin; apply H; now right).
        discriminate.
      * split; [|reflexivity]. intros _ [H|H]; [congruence|].
        destruct IH as [IH _]. now apply IH.
Qed.

Lemma indexOf_app_first (pre rest : list byte) :
  ~ In x pre -> indexOf x (pre ++ x :: rest) = Some (length pre).
Proof.
  induction pre as [|y pre IH]; simpl; intros H.
  - now rewrite byte_eqb_refl.
  - rewrite byte_eqb_neq by (intros ->; apply H; now left).
    rewrite IH by (intros Hin; apply H; now right). reflexivity.
Qed.

Lemma indexOf_app_skip (pre arr : list byte) :
  ~ In x pre ->
  indexOf x (pre ++ arr) = option_map (fun j => length pre + j) (indexOf x arr).
Proof.
  induction pre as [|y pre IH]; simpl; intros H.
  - destruct (indexOf x arr); reflexivity.
  - rewrite byte_eqb_neq by (intros ->; apply H; now left).
    rewrite IH by (intros Hin; apply H; now right).
    destruct (indexOf x arr); reflexivity.
Qed.

(** The index found is the first occurrence. *)
Lemma indexOf_Some (arr : list byte) (i : nat) :
  indexOf x arr = Some i ->
  arr = firstn i arr ++ x :: skipn (S i) arr /\ ~ In x (firstn i arr).
Proof.
  revert i. induction arr as [|y rest IH]; simpl; intros i; [discriminate|].
  destruct (byte_eqb_spec y x) as [->|Hne].
  - intros [= <-]. simpl. tauto.
  - destruct (indexOf x rest) as [j|]; simpl; [|discriminate].
    intros [= <-]. destruct (IH j eq_refl) as [Heq Hnin]. simpl. split.
    + f_equal. exact Heq.
    + intros [H|H]; [congruence | tauto].
Qed.

End IndexOf.

(** ** The escaper *)

Lemma nth_error_split_at (arr : list byte) (i : nat) :
  i < length arr ->
  exists c, at_ arr i = Some c /\ skipn i arr = c :: skipn (i + 1) arr.
Proof.
  revert i. induction arr as [|y rest IH]; simpl; intros i Hi; [lia|].
  destruct i as [|i]; simpl.
  - exists y. split; reflexivity.
  - destruct (IH i ltac:(lia)) as (c & Hc & Hs). exists c. split; assumption.
Qed.

Lemma found_code (c : byte) :
  or_else (foundEnd (Some c)) (foundEscape (Some c))
  = if Byte.eqb c FEND then Some TFEND
    else if Byte.eqb c FESC then Some TFESC else None.
Proof. simpl. destruct (Byte.eqb c FEND); reflexivity. Qed.

Lemma splice_one (arr items : list byte) (i : nat) :
  i < length arr ->
  firstn (i + length items) (splice arr i 1 items) = firstn i arr ++ items
  /\ skipn (i + length items) (splice arr i 1 items) = skipn (i + 1) arr.
Proof.
  intros Hi. unfold splice. rewrite app_assoc.
  assert (Hlen : length (firstn i arr ++ items) = i + length items)
    by (rewrite length_app, length_firstn; lia).
  split.
  - rewrite <- Hlen. rewrite firstn_app, firstn_all, Nat.sub_diag. simpl.
    now rewrite app_nil_r.
  - rewrite <- Hlen. rewrite skipn_app, skipn_all, Nat.sub_diag. reflexivity.
Qed.

(** The loop, entered at index [i], leaves the first [i] bytes as they are
    and escapes the others. *)
Lemma kissEscape_loop_spec (buf : list byte) (i : nat) :
  kissEscape_loop buf i = firstn i buf ++ escape (skipn i buf).
Proof.
  funelim (kissEscape_loop buf i);
    try match goal with
      | Hlt : ?i < length ?buf |- _ =>
          destruct (nth_error_split_at buf _ Hlt) as (c & Hc & Hs)
      end;
    repeat match goal with
      | E : or_else _ _ = _ |- _ => rewrite Hc, found_code in E
      | IH : kissEscape_loop _ _ = _ ++ _ |- _ => rewrite IH; clear IH
      end.
  - (* past the end *)
    rewrite firstn_all2, skipn_all2 by lia. simpl. now rewrite app_nil_r.
  - (* a byte that is escaped *)
    destruct (splice_one buf [FESC; code] i l) as [Hf Hk]. simpl in Hf, Hk.
    rewrite Hf, Hk, Hs. unfold escape at 2. simpl. unfold escape_byte at 1.
    rewrite <- app_assoc. f_equal.
    destruct (Byte.eqb c FEND).
    + injection Heq as <-. reflexivity.
    + destruct (Byte.eqb c FESC); [|discriminate].
      injection Heq as <-. reflexivity.
  - (* a byte that passes *)
    rewrite Hs. unfold escape at 2. simpl. unfold escape_byte at 1.
    destruct (Byte.eqb c FEND); [discriminate|].
    destruct (Byte.eqb c FESC); [discriminate|].
    rewrite <- (firstn_skipn i buf) at 1.
    rewrite firstn_app, firstn_firstn.
    assert (Hi : length (firstn i buf) = i) by (rewrite length_firstn; lia).
    rewrite Hi, Hs. replace (Nat.min (i + 1) i) with i by lia.
    replace (i + 1 - i) with 1 by lia. simpl.
    rewrite <- app_assoc. reflexivity.
Qed.

(** [kissEscape] is the byte-wise escape of the specification. *)
Lemma kissEscape_spec (c : chunk) : kissEscape c = escape (chunk_bytes c).
Proof. unfold kissEscape. now rewrite kissEscape_loop_spec. Qed.

(** ** The unescaping loop of [interpretMessage] *)

Lemma unescape_loop_eq (content : list byte) :
  unescape_loop content
  = match indexOf FESC content with
    | None => content
    | Some escapeIndex =>
        unescape_loop
          (splice content escapeIndex 2
             (spliceItems (replacementMap (at_ content (escapeIndex + 1)))))
    end.
Proof.
  funelim (unescape_loop content);
    match goal with E : indexOf _ _ = _ |- _ => now rewrite E end.
Qed.

Lemma list_length_ind (P : list byte -> Prop) :
  (forall l, (forall l', length l' < length l -> P l') -> P l) ->
  forall l, P l.
Proof.
  intros step l. remember (length l) as n eqn:Hn.
  revert l Hn. induction n as [n IH] using lt_wf_ind.
  intros l ->. apply step. intros l' Hlt. now apply (IH (length l')).
Qed.

Lemma splice_app_skip (pre arr items : list byte) (j del : nat) :
  splice (pre ++ arr) (length pre + j) del items = pre ++ splice arr j del items.
Proof.
  unfold splice. rewrite firstn_app, firstn_all2 by lia.
  replace (length pre + j - length pre) with j by lia.
  rewrite skipn_app, skipn_all2 by lia.
  replace (length pre + j + del - length pre) with (j + del) by lia.
  simpl. now rewrite <- app_assoc.
Qed.

Lemma at_app_skip (pre arr : list byte) (j : nat) :
  at_ (pre ++ arr) (length pre + j) = at_ arr j.
Proof.
  unfold at_. rewrite nth_error_app2 by lia. f_equal. lia.
Qed.

(** Bytes before the first escape marker are not touched by the loop. *)
Lemma unescape_loop_prefix (pre content : list byte) :
  ~ In FESC pre ->
  unescape_loop (pre ++ content) = pre ++ unescape_loop content.
Proof.
  intros Hpre. induction content as [content IH] using list_length_ind.
  rewrite (unescape_loop_eq content), (unescape_loop_eq (pre ++ content)).
  rewrite indexOf_app_skip by assumption.
  destruct (indexOf FESC content) as [j|] eqn:Hj; simpl; [|reflexivity].
  rewrite <- Nat.add_assoc, at_app_skip, splice_app_skip.
  apply IH. now apply unescape_splice_shorter.
Qed.

(** The loop ends only when no escape marker is left. *)
Lemma unescape_loop_no_FESC (content : list byte) :
  ~ In FESC (unescape_loop content).
Proof.
  induction content as [content IH] using list_length_ind.
  rewrite unescape_loop_eq.
  destruct (indexOf FESC content) as [j|] eqn:Hj.
  - apply IH. now apply unescape_splice_shorter.
  - now apply indexOf_None.
Qed.

(** A marker followed by a byte that is no escape code: both go, and the
    loop goes on with what follows. *)
Lemma unescape_loop_malformed (content : list byte) (i : nat) (x : byte) :
  indexOf FESC content = Some i ->
  at_ content (i + 1) = Some x ->
  x <> TFEND -> x <> TFESC ->
  unescape_loop content = firstn i content ++ unescape_loop (skipn (i + 2) content).
Proof.
  intros Hi Hx Hend Hesc.
  rewrite unescape_loop_eq, Hi, Hx. simpl.
  rewrite !byte_eqb_neq by assumption. simpl.
  unfold splice. simpl.
  apply unescape_loop_prefix. now apply indexOf_Some in Hi.
Qed.

(** A well-formed escape of the boundary marker is decoded. *)
Lemma unescape_loop_TFEND (rest : list byte) :
  unescape_loop (FESC :: TFEND :: rest) = FEND :: unescape_loop rest.
Proof.
  rewrite unescape_loop_eq. simpl. unfold splice. simpl.
  apply (unescape_loop_prefix [FEND]).
  intros [H|[]]. discriminate.
Qed.

(** A marker with nothing after it is dropped. *)
Lemma unescape_loop_lone_FESC : unescape_loop [FESC] = [].
Proof. reflexivity. Qed.

(** A marker before a byte that is no escape code goes with that byte. *)
Lemma unescape_loop_pair_dropped (d : byte) (rest : list byte) :
  d <> TFEND -> d <> TFESC ->
  unescape_loop (FESC :: d :: rest) = unescape_loop rest.
Proof.
  intros Hend Hesc.
  now rewrite (unescape_loop_malformed (FESC :: d :: rest) 0 d).
Qed.

(** The escaped escape marker is restored and then taken for a marker
    again: this is where the loop leaves the decoder of the specification. *)
Lemma unescape_loop_TFESC (rest : list byte) :
  unescape_loop (FESC :: TFESC :: rest) = unescape_loop (FESC :: rest).
Proof. now rewrite unescape_loop_eq. Qed.

(** On a content without escaped escape marker the loop is the decoder of
    the specification. *)
Lemma unescape_loop_agrees (content : list byte) :
  has_escaped_FESC content = false -> unescape_loop content = unescape content.
Proof.
  induction content as [content IH] using list_length_ind.
  destruct content as [|c rest]; [reflexivity|].
  cbn [has_escaped_FESC unescape].
  destruct (byte_eqb_spec c FESC) as [->|Hc].
  - destruct rest as [|d rest']; [reflexivity|].
    destruct (byte_eqb_spec d TFESC) as [->|Hesc]; [discriminate|].
    cbn [orb]. intros Hrest.
    destruct (byte_eqb_spec d TFEND) as [->|Hend].
    + rewrite unescape_loop_TFEND, IH; [reflexivity | simpl; lia | assumption].
    + rewrite unescape_loop_pair_dropped by assumption.
      apply IH; [simpl; lia | assumption].
  - intros Hrest. change (c :: rest) with ([c] ++ rest).
    rewrite unescape_loop_prefix by (intros [H|[]]; congruence).
    simpl. rewrite IH; [reflexivity | simpl; lia | assumption].
Qed.

(** The decoder of the specification undoes escaping on every payload. *)
Lemma unescape_escape (b : list byte) : unescape (escape b) = b.
Proof.
  induction b as [|c b IH]; [reflexivity|].
  unfold escape. cbn [flat_map]. fold (escape b). unfold escape_byte.
  destruct (byte_eqb_spec c FEND) as [->|Hend].
  - simpl. now rewrite IH.
  - destruct (byte_eqb_spec c FESC) as [->|Hesc].
    + simpl. now rewrite IH.
    + cbn [app unescape]. rewrite byte_eqb_neq by assumption. now rewrite IH.
Qed.

(** Without the escape marker in the payload, decoding undoes escaping. *)
Lemma unescape_escape_without_FESC (b : list byte) :
  ~ In FESC b -> unescape_loop (escape b) = b.
Proof.
  induction b as [|c b IH]; intros Hb.
  - reflexivity.
  - assert (Hc : c <> FESC) by (intros ->; apply Hb; now left).
    assert (Hb' : ~ In FESC b) by (intros H; apply Hb; now right).
    unfold escape. simpl. fold (escape b). unfold escape_byte.
    destruct (byte_eqb_spec c FEND) as [->|Hne].
    + simpl. rewrite unescape_loop_TFEND. now rewrite IH.
    + rewrite byte_eqb_neq by assumption. simpl.
      change (c :: escape b) with ([c] ++ escape b).
      rewrite unescape_loop_prefix by (intros [H|[]]; congruence).
      simpl. now rewrite IH.
Qed.

(** Escaping and then decoding gives the payload back exactly when the
    payload has no escape marker in it. *)
Lemma roundtrip_iff (c : chunk) :
  unescape_loop (kissEscape c) = chunk_bytes c <-> ~ In FESC (chunk_bytes c).
Proof.
  rewrite kissEscape_spec. split.
  - intros <-. apply unescape_loop_no_FESC.
  - apply unescape_escape_without_FESC.
Qed.

(** ** The framing loop of the receiver *)

Lemma transform_loop_eq (received : list byte)
    (unterminated : option (list byte)) (messages : list (list byte)) :
  transform_loop received unterminated messages
  = match indexOf FEND received with
    | None => (received, (unterminated, messages))
    | Some fendIndex =>
        transform_loop (slice_from received (fendIndex + 1))
          (fst (transform_body received fendIndex unterminated messages))
          (snd (transform_body received fendIndex unterminated messages))
    end.
Proof.
  funelim (transform_loop received unterminated messages);
    match goal with E : indexOf _ _ = _ |- _ => now rewrite E end.
Qed.

Lemma transform_body_run (m rest : list byte)
    (unterminated : option (list byte)) (messages : list (list byte)) :
  transform_body (m ++ FEND :: rest) (length m) unterminated messages
  = run_closed m unterminated messages.
Proof.
  unfold transform_body, slice_to.
  rewrite firstn_app, firstn_all, Nat.sub_diag. simpl. rewrite app_nil_r.
  destruct m, unterminated; reflexivity.
Qed.

(** One round of the loop consumes the run before the first marker. *)
Lemma transform_loop_run (m rest : list byte)
    (unterminated : option (list byte)) (messages : list (list byte)) :
  ~ In FEND m ->
  transform_loop (m ++ FEND :: rest) unterminated messages
  = transform_loop rest (fst (run_closed m unterminated messages))
      (snd (run_closed m unterminated messages)).
Proof.
  intros Hm. rewrite transform_loop_eq, indexOf_app_first by assumption.
  rewrite transform_body_run. unfold slice_from.
  rewrite skipn_app, skipn_all2 by lia.
  replace (length m + 1 - length m) with 1 by lia. reflexivity.
Qed.

(** A marker with nothing before it changes nothing. *)
Lemma transform_loop_marker (rest : list byte)
    (unterminated : option (list byte)) (messages : list (list byte)) :
  transform_loop (FEND :: rest) unterminated messages
  = transform_loop rest unterminated messages.
Proof. apply (transform_loop_run [] rest). intros []. Qed.

Lemma transform_loop_markers (n : nat) (post : list byte)
    (unterminated : option (list byte)) (messages : list (list byte)) :
  transform_loop (repeat FEND n ++ post) unterminated messages
  = transform_loop post unterminated messages.
Proof.
  induction n as [|n IH]; simpl; [reflexivity|].
  now rewrite transform_loop_marker.
Qed.

(** Every chunk is a run without marker, or such a run, a marker and a
    shorter chunk. *)
Lemma chunk_first_run (c : list byte) :
  ~ In FEND c \/
  exists m rest, c = m ++ FEND :: rest /\ ~ In FEND m /\ length rest < length c.
Proof.
  destruct (indexOf FEND c) as [j|] eqn:Hj.
  - right. destruct (indexOf_Some _ _ _ Hj) as [Heq Hnin].
    exists (firstn j c), (skipn (S j) c). repeat split; try assumption.
    rewrite length_skipn. apply indexOf_lt in Hj. lia.
  - left. now apply indexOf_None.
Qed.

(** What follows a marker is processed in a state that does not depend on
    it: two continuations on which the loop agrees can be exchanged. *)
Lemma transform_loop_after_marker (pre X Y : list byte) :
  (forall u msgs, transform_loop X u msgs = transform_loop Y u msgs) ->
  forall u msgs,
    transform_loop (pre ++ FEND :: X) u msgs
    = transform_loop (pre ++ FEND :: Y) u msgs.
Proof.
  intros HXY. induction pre as [pre IH] using list_length_ind. intros u msgs.
  destruct (chunk_first_run pre) as [Hnin | (m & rest & -> & Hm & Hlen)].
  - rewrite (transform_loop_run pre X), (transform_loop_run pre Y) by assumption.
    apply HXY.
  - rewrite <- !app_assoc. simpl.
    rewrite (transform_loop_run m (rest ++ FEND :: X)) by assumption.
    rewrite (transform_loop_run m (rest ++ FEND :: Y)) by assumption.
    now apply IH.
Qed.

Lemma run_closed_None (m : list byte) (messages : list (list byte)) :
  fst (run_closed m None messages) = None.
Proof. destruct m; reflexivity. Qed.

(** The loop never fills the partial buffer. *)
Lemma transform_loop_keeps_None (received : list byte)
    (messages : list (list byte)) :
  fst (snd (transform_loop received None messages)) = None.
Proof.
  revert messages.
  induction received as [received IH] using list_length_ind. intros messages.
  destruct (chunk_first_run received) as [Hnin | (m & rest & -> & Hm & Hlen)].
  - apply indexOf_None in Hnin. now rewrite transform_loop_eq, Hnin.
  - rewrite transform_loop_run by assumption.
    pose proof (run_closed_None m messages) as Hn.
    destruct (run_closed m None messages) as [u' msgs']. simpl in *. subst u'.
    now apply IH.
Qed.

(** After a chunk that ends with a marker nothing is left to buffer. *)
Lemma transform_loop_ends_with_marker (pre : list byte)
    (unterminated : option (list byte)) (messages : list (list byte)) :
  fst (transform_loop (pre ++ [FEND]) unterminated messages) = [].
Proof.
  revert unterminated messages.
  induction pre as [pre IH] using list_length_ind. intros u msgs.
  destruct (chunk_first_run pre) as [Hnin | (m & rest & -> & Hm & Hlen)].
  - rewrite transform_loop_run by assumption. now rewrite transform_loop_eq.
  - rewrite <- app_assoc. simpl.
    rewrite (transform_loop_run m (rest ++ [FEND])) by assumption.
    now apply IH.
Qed.

Lemma run_closed_nonempty (m : list byte) (unterminated : option (list byte))
    (messages : list (list byte)) :
  m <> [] -> fst (run_closed m unterminated messages) = None.
Proof. destruct m, unterminated; simpl; congruence. Qed.

(** A non-empty first run takes the partial buffer with it. *)
Lemma transform_loop_first_run (m rest : list byte)
    (unterminated : option (list byte)) (messages : list (list byte)) :
  ~ In FEND m -> m <> [] ->
  fst (snd (transform_loop (m ++ FEND :: rest) unterminated messages)) = None.
Proof.
  intros Hm Hne. rewrite transform_loop_run by assumption.
  rewrite run_closed_nonempty by assumption. apply transform_loop_keeps_None.
Qed.

(** ** [_transform] of the receiver, chunk by chunk *)

Lemma transform_start_before_marker (pre X Y : list byte)
    (unterminated : option (list byte)) :
  transform_start (pre ++ FEND :: X) unterminated
  = transform_start (pre ++ FEND :: Y) unterminated.
Proof. destruct pre; reflexivity. Qed.

Lemma transform_start_None (received : list byte) :
  transform_start received None = (None, []).
Proof. unfold transform_start. now destruct (at_ received 0). Qed.

Lemma transform_start_marker (rest : list byte)
    (unterminated : option (list byte)) :
  fst (transform_start (FEND :: rest) unterminated) = None.
Proof. now destruct unterminated. Qed.

(** Markers that directly follow a marker of the same chunk. *)
Lemma receiver_transform_extra_markers (this : KISSReceiver)
    (pre post : list byte) (n : nat) :
  receiver_transform this (pre ++ FEND :: repeat FEND n ++ post)
  = receiver_transform this (pre ++ FEND :: post).
Proof.
  unfold receiver_transform.
  rewrite (transform_start_before_marker pre (repeat FEND n ++ post) post).
  rewrite (transform_loop_after_marker pre (repeat FEND n ++ post) post).
  - reflexivity.
  - intros u msgs. apply transform_loop_markers.
Qed.

(** Markers at the head of a chunk, when nothing is buffered. *)
Lemma receiver_transform_leading_markers (this : KISSReceiver)
    (post : list byte) (n : nat) :
  unterminatedMessage this = None ->
  receiver_transform this (repeat FEND n ++ post) = receiver_transform this post.
Proof.
  intros Hidle. unfold receiver_transform.
  rewrite Hidle, !transform_start_None. simpl.
  now rewrite transform_loop_markers.
Qed.

(** A chunk that ends with a marker leaves the partial buffer empty. *)
Lemma receiver_transform_idle (this : KISSReceiver) (pre : list byte) :
  unterminatedMessage (fst (receiver_transform this (pre ++ [FEND]))) = None.
Proof.
  unfold receiver_transform.
  set (start := transform_start (pre ++ [FEND]) (unterminatedMessage this)).
  pose proof (transform_loop_ends_with_marker pre (fst start) (snd start)) as Hr.
  assert (Hu : fst (snd (transform_loop (pre ++ [FEND]) (fst start) (snd start)))
               = None).
  { destruct (chunk_first_run (pre ++ [FEND]))
      as [Hnin | (m & rest & Heq & Hm & _)].
    - exfalso. apply Hnin. apply in_or_app. right. now left.
    - subst start. rewrite Heq. destruct m as [|b m].
      + (* the chunk starts with a marker *)
        simpl. rewrite transform_start_marker. apply transform_loop_keeps_None.
      + now apply transform_loop_first_run. }
  destruct (transform_loop (pre ++ [FEND]) (fst start) (snd start))
    as [received [unterminated messages]].
  simpl in *. now subst.
Qed.

Lemma receiver_transform_markers_only (this : KISSReceiver) (n : nat) :
  unterminatedMessage this = None ->
  receiver_transform this (repeat FEND n) = (this, []).
Proof.
  intros Hidle.
  rewrite <- (app_nil_r (repeat FEND n)).
  rewrite receiver_transform_leading_markers by assumption.
  destruct this as [o e u]. simpl in Hidle. subst u. reflexivity.
Qed.

(** ** Sequences of chunks *)

Lemma feed_app (this : KISSReceiver) (cs1 cs2 : list (list byte)) :
  feed this (cs1 ++ cs2)
  = (fst (feed (fst (feed this cs1)) cs2),
     snd (feed this cs1) ++ snd (feed (fst (feed this cs1)) cs2)).
Proof.
  revert this. induction cs1 as [|c cs1 IH]; intros this; simpl.
  - now destruct (feed this cs2).
  - destruct (receiver_transform this c) as [this1 out1].
    rewrite IH. destruct (feed this1 cs1) as [this2 out2]. simpl.
    now rewrite app_assoc.
Qed.

(** Chunks that act alike from every state can be exchanged in a stream. *)
Lemma feed_exchange (X Y : list (list byte)) :
  (forall this, feed this X = feed this Y) ->
  forall this before after,
    feed this (before ++ X ++ after) = feed this (before ++ Y ++ after).
Proof.
  intros HXY this before after. rewrite !feed_app. now rewrite !HXY.
Qed.

Lemma feed_markers_only (this : KISSReceiver) (ns : list nat) :
  unterminatedMessage this = None ->
  feed this (map (repeat FEND) ns) = (this, []).
Proof.
  intros Hidle. induction ns as [|n ns IH]; simpl; [reflexivity|].
  rewrite receiver_transform_markers_only by assumption. now rewrite IH.
Qed.

(** ** Numbers and bytes *)

Lemma byte_of_Z_to_N (z : Z) :
  Z.of_N (Byte.to_N (byte_of_Z z)) = (z mod 256)%Z.
Proof.
  unfold byte_of_Z.
  assert (Hb : (0 <= z mod 256 < 256)%Z) by (apply Z.mod_pos_bound; lia).
  destruct (Byte.of_N (Z.to_N (z mod 256))) as [b|] eqn:E.
  - apply Byte.to_of_N in E. rewrite E. lia.
  - apply Byte.of_N_None_iff in E. lia.
Qed.

Lemma byte_of_Z_inj (a b : Z) :
  (0 <= a < 256)%Z -> (0 <= b < 256)%Z -> byte_of_Z a = byte_of_Z b -> a = b.
Proof.
  intros Ha Hb H. apply (f_equal (fun x => Z.of_N (Byte.to_N x))) in H.
  rewrite !byte_of_Z_to_N, !Z.mod_small in H; assumption.
Qed.

Lemma byte_of_Z_of_byte (b : byte) : byte_of_Z (Z.of_N (Byte.to_N b)) = b.
Proof. destruct b; reflexivity. Qed.

Lemma ToUint8_num_of_Z (z : Z) : ToUint8 (num_of_Z z) = byte_of_Z z.
Proof. unfold ToUint8, num_of_Z, inject_Z. simpl. now rewrite Z.quot_1_r. Qed.

Lemma ToUint8_num_of_byte (b : byte) : ToUint8 (num_of_byte b) = b.
Proof. unfold num_of_byte. now rewrite ToUint8_num_of_Z, byte_of_Z_of_byte. Qed.

(** A time in milliseconds is stored as its integer quotient by 10. *)
Lemma ToUint8_div10 (v : Z) :
  safe_integer v ->
  ToUint8 (number_div10 (num_of_Z v)) = byte_of_Z (v ÷ 10).
Proof.
  intros _. unfold ToUint8, number_div10, num_of_Z, inject_Z. simpl.
  now rewrite Z.mul_1_r.
Qed.

Lemma number_truthy_num_of_Z (v : Z) :
  number_truthy (num_of_Z v) = negb (v =? 0)%Z.
Proof.
  unfold number_truthy, num_of_Z, inject_Z, Qeq_bool, Z.eqb. simpl.
  rewrite Z.mul_1_r. now destruct v.
Qed.

Lemma Buffer_from_Array_from (b : list byte) :
  Buffer_from_array (Array_from b) = b.
Proof.
  unfold Buffer_from_array, Array_from.
  induction b as [|x b IH]; [reflexivity|].
  cbn [map]. rewrite IH. f_equal. apply ToUint8_num_of_byte.
Qed.

(** ** The port index and the command bytes *)

Lemma valid_portIndex_range (n : number) :
  valid_portIndex n = true -> (0 <= portIndex_Z n <= 15)%Z.
Proof.
  unfold valid_portIndex. destruct n as [q| |neg]; simpl; try discriminate.
  rewrite andb_true_iff, negb_true_iff, orb_false_iff, !negb_false_iff.
  rewrite Z.eqb_eq, !Qle_bool_iff. unfold Qle. simpl.
  intros (Hint & H0 & H15).
  pose proof (Z.div_mod (Qnum q) (Zpos (Qden q)) ltac:(lia)) as Hdiv.
  rewrite Hint in Hdiv. nia.
Qed.

Lemma ports_at_valid (n : number) :
  valid_portIndex n = true ->
  ports_at n = String.get (Z.to_nat (portIndex_Z n)) ports.
Proof.
  unfold valid_portIndex, ports_at. destruct n as [q| |neg]; try discriminate.
  rewrite andb_true_iff, negb_true_iff, orb_false_iff.
  intros (-> & -> & _). reflexivity.
Qed.

Lemma forall_port (P : Z -> Prop) :
  P 0%Z -> P 1%Z -> P 2%Z -> P 3%Z -> P 4%Z -> P 5%Z -> P 6%Z -> P 7%Z ->
  P 8%Z -> P 9%Z -> P 10%Z -> P 11%Z -> P 12%Z -> P 13%Z -> P 14%Z -> P 15%Z ->
  forall p, (0 <= p <= 15)%Z -> P p.
Proof.
  intros ? ? ? ? ? ? ? ? ? ? ? ? ? ? ? ? p Hp.
  assert (p = 0 \/ p = 1 \/ p = 2 \/ p = 3 \/ p = 4 \/ p = 5 \/ p = 6 \/ p = 7
          \/ p = 8 \/ p = 9 \/ p = 10 \/ p = 11 \/ p = 12 \/ p = 13 \/ p = 14
          \/ p = 15)%Z as Hcases by lia.
  repeat (destruct Hcases as [-> | Hcases]; [assumption|]). now subst.
Qed.

(** [parseInt] of the port digit and the kind digit is
    [(portIndex << 4) | kind]. *)
Lemma commandBytes_port (p : Z) (command : property) :
  (0 <= p <= 15)%Z ->
  commandBytes (String.get (Z.to_nat p) ports) command
  = num_of_Z (Z.lor (Z.shiftl p 4) (commandKind command)).
Proof.
  intros Hp. revert p Hp command.
  apply (forall_port (fun p => forall command, _ = _));
    intros []; reflexivity.
Qed.

Lemma dataCommand_port (p : Z) :
  (0 <= p <= 15)%Z ->
  parseInt16 (template (String.get (Z.to_nat p) ports) "0"%char)
  = num_of_Z (Z.lor (Z.shiftl p 4) 0).
Proof.
  intros Hp. revert p Hp. apply forall_port; reflexivity.
Qed.

Lemma shiftl_lor_port (p k : Z) :
  (0 <= p <= 15)%Z -> (0 <= k <= 15)%Z ->
  Z.lor (Z.shiftl p 4) k = (16 * p + k)%Z.
Proof.
  intros Hp Hk. revert p Hp k Hk.
  apply (forall_port (fun p => forall k, _ -> _ = _));
    apply forall_port; reflexivity.
Qed.

Lemma commandKind_range (p : property) : (0 <= commandKind p <= 15)%Z.
Proof. destruct p; simpl; lia. Qed.

(** ** The frames of the sender *)

Lemma getCommandBuilder_frame (n : number) (command : property) (v : value) :
  getCommandBuilder n command v
  = FEND :: ToUint8 (commandBytes (ports_at n) command)
      :: value_bytes v ++ [FEND].
Proof.
  unfold getCommandBuilder, Buffer_from_array.
  cbn [app map element_ToUint8]. rewrite ToUint8_num_of_byte.
  f_equal. f_equal. rewrite map_app. cbn [map element_ToUint8].
  rewrite ToUint8_num_of_byte. f_equal.
  destruct v; try reflexivity. apply Buffer_from_Array_from.
Qed.

Lemma getCommandBuilder_valid (n : number) (command : property) (v : value) :
  valid_portIndex n = true ->
  getCommandBuilder n command v
  = FEND :: commandByte n command :: value_bytes v ++ [FEND].
Proof.
  intros Hv. rewrite getCommandBuilder_frame, (ports_at_valid _ Hv).
  rewrite commandBytes_port by now apply valid_portIndex_range.
  now rewrite ToUint8_num_of_Z.
Qed.

Lemma commandByte_inj (n : number) (c1 c2 : property) :
  valid_portIndex n = true ->
  commandByte n c1 = commandByte n c2 -> c1 = c2.
Proof.
  intros Hv H. apply valid_portIndex_range in Hv. unfold commandByte in H.
  pose proof (commandKind_range c1). pose proof (commandKind_range c2).
  rewrite !shiftl_lor_port in H by assumption.
  apply byte_of_Z_inj in H; try lia.
  destruct c1, c2; simpl in H; try reflexivity; lia.
Qed.

(** ** The constructor of the sender *)

Section ForEach.

Variable opts : senderOpts.
Variable outboundCommand : property -> value -> list byte.

Lemma forEach_body_pushed (this : KISSSender) (p : property) :
  pushed (forEach_body opts outboundCommand this p)
  = pushed this ++ initFrame opts outboundCommand p.
Proof.
  unfold forEach_body, initFrame.
  destruct (opts_get opts p) as [v|]; [|now rewrite app_nil_r].
  destruct (truthy (stored p v)); simpl; [reflexivity | now rewrite app_nil_r].
Qed.

Lemma forEach_body_fields (this : KISSSender) (p : property) :
  portIndex (forEach_body opts outboundCommand this p) = portIndex this
  /\ dataStart (forEach_body opts outboundCommand this p) = dataStart this
  /\ dataEnd (forEach_body opts outboundCommand this p) = dataEnd this.
Proof.
  unfold forEach_body. destruct (opts_get opts p) as [v|]; [|tauto].
  destruct (truthy (stored p v)); simpl; tauto.
Qed.

Lemma forEach_pushed (ps : list property) (this : KISSSender) :
  pushed (fold_left (forEach_body opts outboundCommand) ps this)
  = pushed this ++ flat_map (initFrame opts outboundCommand) ps.
Proof.
  revert this. induction ps as [|p ps IH]; intros this; simpl.
  - now rewrite app_nil_r.
  - now rewrite IH, forEach_body_pushed, <- app_assoc.
Qed.

Lemma forEach_fields (ps : list property) (this : KISSSender) :
  portIndex (fold_left (forEach_body opts outboundCommand) ps this)
  = portIndex this
  /\ dataStart (fold_left (forEach_body opts outboundCommand) ps this)
     = dataStart this
  /\ dataEnd (fold_left (forEach_body opts outboundCommand) ps this)
     = dataEnd this.
Proof.
  revert this. induction ps as [|p ps IH]; intros this; simpl; [tauto|].
  destruct (IH (forEach_body opts outboundCommand this p)) as (-> & -> & ->).
  apply forEach_body_fields.
Qed.

End ForEach.

(** Construction fails exactly on a truthy port index that is not an
    integer or not in 0..15. *)
Lemma newSender_throws_iff (opts : senderOpts) :
  (exists message, newSender opts = Throw message)
  <-> valid_portIndex (or_zero (opt_portIndex opts)) = false.
Proof.
  unfold newSender, valid_portIndex.
  set (n := or_zero (opt_portIndex opts)).
  destruct (Number_isInteger n); cbn [negb andb].
  - destruct (number_lt n (num_of_Z 0) || number_lt (num_of_Z 15) n);
      cbn [negb].
    + split; [reflexivity | eauto].
    + split; [intros [m Hm]; discriminate | discriminate].
  - split; [reflexivity | eauto].
Qed.

Lemma Ok_inj (A : Type) (a b : A) : Ok a = Ok b -> a = b.
Proof. now intros [= ->]. Qed.

(** What a successful construction leaves. *)
Lemma newSender_Ok (opts : senderOpts) (this : KISSSender) :
  newSender opts = Ok this ->
  valid_portIndex (portIndex this) = true
  /\ portIndex this = or_zero (opt_portIndex opts)
  /\ dataStart this = [FEND; dataCommandByte (portIndex this)]
  /\ dataEnd this = [FEND]
  /\ pushed this
     = flat_map (initFrame opts (getCommandBuilder (portIndex this))) properties.
Proof.
  unfold newSender. set (n := or_zero (opt_portIndex opts)).
  destruct (Number_isInteger n) eqn:Hint; cbn [negb]; [|discriminate].
  destruct (number_lt n (num_of_Z 0) || number_lt (num_of_Z 15) n) eqn:Hrange;
    [discriminate|].
  cbv zeta. intros H. apply Ok_inj in H. subst this.
  assert (Hv : valid_portIndex n = true)
    by (unfold valid_portIndex; now rewrite Hint, Hrange).
  match goal with
  | |- context [fold_left ?f ?ps ?init] =>
      destruct (forEach_fields opts (getCommandBuilder n) ps init) as (-> & -> & ->);
      rewrite (forEach_pushed opts (getCommandBuilder n) ps init)
  end.
  cbn [portIndex dataStart dataEnd pushed app].
  repeat split; try assumption.
  unfold Buffer_from_array. cbn [map element_ToUint8].
  rewrite ToUint8_num_of_byte, (ports_at_valid _ Hv).
  rewrite dataCommand_port by now apply valid_portIndex_range.
  now rewrite ToUint8_num_of_Z.
Qed.

Lemma newSender_valid (opts : senderOpts) :
  valid_portIndex (or_zero (opt_portIndex opts)) = true ->
  exists this, newSender opts = Ok this.
Proof.
  intros Hv. destruct (newSender opts) as [this|message] eqn:E.
  - now exists this.
  - assert (Hf : valid_portIndex (or_zero (opt_portIndex opts)) = false)
      by (apply newSender_throws_iff; now exists message).
    congruence.
Qed.

Lemma constructed_fields (this : KISSSender) :
  constructed this ->
  valid_portIndex (portIndex this) = true
  /\ dataStart this = [FEND; dataCommandByte (portIndex this)]
  /\ dataEnd this = [FEND].
Proof.
  induction 1 as [opts this Hnew | this c _ IH].
  - apply newSender_Ok in Hnew. tauto.
  - exact IH.
Qed.

(** The frames of the constructor, property by property. *)
Lemma initFrame_valid (opts : senderOpts) (n : number) (p : property)
    (f : list byte) :
  valid_portIndex n = true ->
  In f (initFrame opts (getCommandBuilder n) p) ->
  exists v, opts_get opts p = Some v /\ truthy (stored p v) = true
            /\ f = FEND :: commandByte n p :: value_bytes (stored p v) ++ [FEND].
Proof.
  intros Hv. unfold initFrame.
  destruct (opts_get opts p) as [v|]; [|intros []].
  destruct (truthy (stored p v)) eqn:Ht; [|intros []].
  intros [<-|[]]. exists v. repeat split; try assumption.
  now apply getCommandBuilder_valid.
Qed.

Lemma number_truthy_div10 (v : Z) :
  safe_integer v ->
  number_truthy (number_div10 (num_of_Z v)) = negb (v =? 0)%Z.
Proof.
  intros _. unfold number_truthy, number_div10, num_of_Z, inject_Z, Qeq_bool, Z.eqb.
  simpl. rewrite !Z.mul_1_r. now destruct v.
Qed.

Lemma timeField_get (opts : senderOpts) (t : property) (n : number) :
  timeField opts t = Some n ->
  is_time t = true /\ opts_get opts t = Some (VNum n).
Proof.
  destruct t; cbn [timeField opts_get is_time]; try discriminate;
    intros ->; split; reflexivity.
Qed.

Lemma stored_time (t : property) (n : number) :
  is_time t = true ->
  stored t (VNum n)
  = if number_truthy n then VNum (number_div10 n) else VBool false.
Proof.
  intros Ht. unfold stored. rewrite Ht.
  destruct t; try discriminate; simpl; now destruct (number_truthy n).
Qed.

Lemma In_properties (p : property) : In p properties.
Proof. destruct p; simpl; tauto. Qed.

(** ** The receiver on whole frames *)

Lemma transform_loop_nil (unterminated : option (list byte))
    (messages : list (list byte)) :
  transform_loop [] unterminated messages = ([], (unterminated, messages)).
Proof. now rewrite transform_loop_eq. Qed.

(** A frame between two markers, received in one chunk when nothing is
    buffered, is emitted at once and nothing stays behind. *)
Lemma receiver_transform_frame (this : KISSReceiver) (m : list byte) :
  unterminatedMessage this = None ->
  m <> [] -> ~ In FEND m ->
  receiver_transform this (FEND :: m ++ [FEND])
  = (this, [interpretMessage this m]).
Proof.
  intros Hidle Hne Hm. unfold receiver_transform.
  rewrite Hidle, transform_start_None. cbn [fst snd].
  rewrite transform_loop_marker, transform_loop_run by assumption.
  rewrite transform_loop_nil.
  destruct m as [|b m]; [congruence|]. cbn.
  destruct this as [o e u]. simpl in Hidle. now subst u.
Qed.

(** Without an escape marker in what is buffered, [_flush] pushes what
    [interpretMessage] would. *)
Lemma receiver_flush_without_escape (this : KISSReceiver) (u : list byte) :
  unterminatedMessage this = Some u ->
  u <> [] -> ~ In FESC (tl u) ->
  receiver_flush this = [interpretMessage this u].
Proof.
  intros Hu Hne Hesc. unfold receiver_flush, interpretMessage. rewrite Hu.
  apply indexOf_None in Hesc. rewrite unescape_loop_eq, Hesc.
  destruct u as [|c u]; [congruence|]. simpl.
  destruct (readableObjectMode this), (emitCommandByte this); reflexivity.
Qed.

(** ** Splitting a chunk after a marker *)

Lemma run_closed_messages_app (m : list byte) (u : option (list byte))
    (m0 msgs : list (list byte)) :
  run_closed m u (m0 ++ msgs)
  = (fst (run_closed m u msgs), m0 ++ snd (run_closed m u msgs)).
Proof. destruct m, u; simpl; now rewrite ?app_assoc. Qed.

(** The messages found before the loop starts stay in front. *)
Lemma transform_loop_messages_app (received : list byte)
    (u : option (list byte)) (m0 msgs : list (list byte)) :
  transform_loop received u (m0 ++ msgs)
  = (fst (transform_loop received u msgs),
     (fst (snd (transform_loop received u msgs)),
      m0 ++ snd (snd (transform_loop received u msgs)))).
Proof.
  revert u msgs.
  induction received as [received IH] using list_length_ind. intros u msgs.
  destruct (chunk_first_run received) as [Hnin | (m & rest & -> & Hm & Hlen)].
  - apply indexOf_None in Hnin. now rewrite !transform_loop_eq, Hnin.
  - rewrite (transform_loop_run m rest u (m0 ++ msgs)) by assumption.
    rewrite (transform_loop_run m rest u msgs) by assumption.
    rewrite run_closed_messages_app. cbn [fst snd]. now apply IH.
Qed.

(** The loop on a chunk is the loop on what follows one of its markers,
    started where the loop on the part up to that marker ends. *)
Lemma transform_loop_split (pre X : list byte) (u : option (list byte))
    (msgs : list (list byte)) :
  transform_loop (pre ++ FEND :: X) u msgs
  = transform_loop X
      (fst (snd (transform_loop (pre ++ [FEND]) u msgs)))
      (snd (snd (transform_loop (pre ++ [FEND]) u msgs))).
Proof.
  revert u msgs. induction pre as [pre IH] using list_length_ind. intros u msgs.
  destruct (chunk_first_run pre) as [Hnin | (m & rest & -> & Hm & Hlen)].
  - rewrite (transform_loop_run pre X), (transform_loop_run pre []) by assumption.
    now rewrite transform_loop_nil.
  - rewrite <- !app_assoc. cbn [app].
    rewrite (transform_loop_run m (rest ++ FEND :: X)) by assumption.
    rewrite (transform_loop_run m (rest ++ [FEND])) by assumption.
    now apply IH.
Qed.

(** Where the chunks are cut directly after a marker, the cut does not
    show: the receiver and the messages are those of the uncut chunk. *)
Lemma feed_split_after_marker (this : KISSReceiver) (c1 c2 : list byte) :
  feed this [c1 ++ [FEND]; c2] = feed this [c1 ++ FEND :: c2].
Proof.
  cbn [feed].
  pose proof (receiver_transform_idle this c1) as Hidle.
  unfold receiver_transform in *.
  rewrite (transform_start_before_marker c1 c2 []).
  set (start := transform_start (c1 ++ [FEND]) (unterminatedMessage this)) in *.
  rewrite (transform_loop_split c1 c2).
  pose proof (transform_loop_ends_with_marker c1 (fst start) (snd start)) as Hr.
  destruct (transform_loop (c1 ++ [FEND]) (fst start) (snd start))
    as [r1 [u1 msgs1]].
  cbn [fst snd] in *. subst r1. cbn [length Nat.ltb Nat.leb] in *.
  cbn [unterminatedMessage] in Hidle. subst u1.
  cbn [unterminatedMessage readableObjectMode emitCommandByte].
  rewrite transform_start_None. cbn [fst snd].
  rewrite <- (app_nil_r msgs1) at 1.
  rewrite transform_loop_messages_app.
  destruct (transform_loop c2 None []) as [r2 [u2 msgs2]].
  cbn [fst snd]. rewrite !app_nil_r, map_app. reflexivity.
Qed.

(** ** The initialization frames of a constructed sender *)

(** The constructor pushes one frame for each option that is present and
    stored truthy, and nothing else. *)
Lemma pushed_frames (opts : senderOpts) (this : KISSSender) (f : list byte) :
  newSender opts = Ok this ->
  In f (pushed this) <->
  exists p v,
    opts_get opts p = Some v /\ truthy (stored p v) = true
    /\ f = FEND :: commandByte (portIndex this) p
             :: value_bytes (stored p v) ++ [FEND].
Proof.
  intros Hnew. destruct (newSender_Ok opts this Hnew) as (Hv & _ & _ & _ & ->).
  rewrite in_flat_map. split.
  - intros (p & _ & Hin). exists p. now apply initFrame_valid.
  - intros (p & v & Hget & Ht & ->). exists p. split; [apply In_properties|].
    unfold initFrame. rewrite Hget, Ht. left.
    now apply getCommandBuilder_valid.
Qed.

(** The frame of a command, when one was pushed, is told by its second
    byte. *)
Lemma pushed_frame_of_command (opts : senderOpts) (this : KISSSender)
    (f : list byte) (p : property) :
  newSender opts = Ok this ->
  In f (pushed this) ->
  at_ f 1 = Some (commandByte (portIndex this) p) ->
  exists v,
    opts_get opts p = Some v /\ truthy (stored p v) = true
    /\ f = FEND :: commandByte (portIndex this) p
             :: value_bytes (stored p v) ++ [FEND].
Proof.
  intros Hnew Hin Hat.
  destruct (newSender_Ok opts this Hnew) as (Hv & _).
  apply (pushed_frames opts this f Hnew) in Hin. destruct Hin as (p' & v & Hget & Ht & ->).
  simpl in Hat. injection Hat as Hat.
  apply (commandByte_inj _ _ _ Hv) in Hat. subst p'. now exists v.
Qed.

Lemma or_zero_num_of_Z (p : Z) : or_zero (Some (num_of_Z p)) = num_of_Z p.
Proof.
  unfold or_zero. rewrite number_truthy_num_of_Z.
  destruct (Z.eqb_spec p 0) as [->|]; reflexivity.
Qed.

Lemma valid_portIndex_num_of_Z (p : Z) :
  (0 <= p <= 15)%Z -> valid_portIndex (num_of_Z p) = true.
Proof. revert p. apply forall_port; reflexivity. Qed.

Lemma portIndex_Z_num_of_Z (p : Z) : portIndex_Z (num_of_Z p) = p.
Proof. unfold portIndex_Z, num_of_Z, inject_Z. simpl. apply Z.div_1_r. Qed.

Lemma commandByte_num_of_Z (p : Z) (command : property) :
  (0 <= p <= 15)%Z ->
  commandByte (num_of_Z p) command = byte_of_Z (16 * p + commandKind command).
Proof.
  intros Hp. unfold commandByte. rewrite portIndex_Z_num_of_Z.
  rewrite shiftl_lor_port; [reflexivity | assumption | apply commandKind_range].
Qed.

(** ** The examples of the README *)

(** The initialization frames of the first example: hardware, persistence
    and slot time for port 12; [fullDuplex: false] sends nothing. *)
Example readme_initialization :
  pushed_of
    (newSender
       (mkSenderOpts (Some (num_of_Z 12)) (Some false)
          (Some (HardwareString "hardware configuration string"))
          (Some (num_of_Z 16)) (Some (num_of_Z 100)) (Some (num_of_Z 100))
          (Some (num_of_Z 100))))
  = Some [[xc0; xc6] ++ Buffer_from_string "hardware configuration string"
            ++ [xc0];
          [xc0; xc2; x10; xc0];
          [xc0; xc3; x0a; xc0];
          [xc0; xc1; x0a; xc0];
          [xc0; xc4; x0a; xc0]].
Proof. reflexivity. Qed.

(** Writing ['Hello, world!'] to that sender. *)
Example readme_write :
  exists this,
    newSender (portOpts 12) = Ok this
    /\ pushed (sender_transform this (ChunkString "Hello, world!"))
       = [[xc0; xc0; x48; x65; x6c; x6c; x6f; x2c; x20; x77; x6f; x72; x6c;
           x64; x21; xc0]].
Proof. eexists. split; reflexivity. Qed.

(** The frame [192, 160, 'hello world!', 192] in one chunk, in object mode:
    the command byte 160 is port 10. *)
Example readme_object_mode :
  snd (receiver_transform (newReceiver (mkReceiverOpts false true))
         ([xc0; xa0] ++ Buffer_from_string "hello world!" ++ [xc0]))
  = [EmitObject 10 (Buffer_from_string "hello world!")].
Proof. reflexivity. Qed.

(** At the end of its stream the sender pushes the frame that leaves KISS
    mode. *)
Example sender_flush_frame (this : KISSSender) :
  pushed (sender_flush this) = pushed this ++ [[xc0; xff; xc0]].
Proof. reflexivity. Qed.

(** ** What does not hold in general *)

(** The round trip is not the identity on every payload. *)
Lemma roundtrip_not_identity :
  ~ (forall b : list byte, unescape_loop (kissEscape (ChunkBuffer b)) = b).
Proof.
  intros H. specialize (H [FESC]). apply roundtrip_iff in H.
  apply H. now left.
Qed.

(** The messages depend on how the bytes are cut into chunks. *)
Lemma chunking_not_invariant :
  ~ (forall (this : KISSReceiver) (cs1 cs2 : list (list byte)),
        concat cs1 = concat cs2 -> snd (feed this cs1) = snd (feed this cs2)).
Proof.
  intros H.
  specialize (H defaultReceiver [[xc0; xa0] ++ hello ++ [xc0]]
                [[xc0; xa0]; hello; [xc0]] eq_refl).
  vm_compute in H. discriminate H.
Qed.

(** ** Object mode on frames that the loop decodes well *)

(** In object mode, whatever [emitCommandByte] is, a frame (a non-empty run
    without marker, between two markers) whose content holds no escaped
    escape marker is emitted as the record of [commandByte >> 4] and of the
    content as the decoder of the specification unescapes it. *)
Lemma object_mode_frame (emitCommandByte : bool) (commandByte : byte)
    (content : list byte) :
  ~ In FEND (commandByte :: content) ->
  has_escaped_FESC content = false ->
  receiver_transform (newReceiver (mkReceiverOpts emitCommandByte true))
    (FEND :: (commandByte :: content) ++ [FEND])
  = (newReceiver (mkReceiverOpts emitCommandByte true),
     [EmitObject (N.shiftr (Byte.to_N commandByte) 4) (unescape content)]).
Proof.
  intros Hm Hesc. rewrite receiver_transform_frame;
    [|reflexivity | discriminate | assumption].
  unfold interpretMessage, newReceiver.
  cbn [readableObjectMode opt_emitObject hd_error tl shr4].
  now rewrite unescape_loop_agrees.
Qed.

(** * The claims of the specification *)

(** C1. The round trip through [kissEscape] and the unescaping loop of
    [interpretMessage] is not the identity on a payload that holds the escape
    marker. The one-byte payload 0xDB is escaped to 0xDB 0xDD; the loop
    restores 0xDB, searches again from the start of the content, finds the
    byte it has just restored and removes it. The payload decodes to the
    empty sequence, where the decoder of the specification gives 0xDB back,
    and the payload 0xDB 0xDC decodes to the single byte 0xC0. *)
Theorem C1_roundtrip_loses_escape_marker :
  kissEscape (ChunkBuffer [FESC]) = [FESC; TFESC]
  /\ unescape_loop (kissEscape (ChunkBuffer [FESC])) = []
  /\ unescape_loop (kissEscape (ChunkBuffer [FESC])) <> [FESC]
  /\ unescape (kissEscape (ChunkBuffer [FESC])) = [FESC]
  /\ unescape_loop (kissEscape (ChunkBuffer [FESC; TFEND])) = [FEND]
  /\ interpretMessage defaultReceiver (xa0 :: kissEscape (ChunkBuffer [FESC]))
     = EmitBuffer [].
Proof. repeat split; try reflexivity. discriminate. Qed.

(** C2. Feeding a frame in one chunk and feeding it split over several calls
    do not give the same messages: the bytes after the last marker of a
    chunk replace the partial buffer instead of extending it. The three
    calls [0xC0, 0xA0], ['hello'], [0xC0] emit the bytes of ['ello'], with
    0x68 taken for the command byte, where the single chunk emits the bytes
    of ['hello']; and the five calls of the README, which announces
    ['hello world!'], emit the bytes of ['d!']. *)
Theorem C2_split_chunks_replace_partial_buffer :
  snd (feed defaultReceiver [[xc0; xa0] ++ hello ++ [xc0]])
  = [EmitBuffer hello]
  /\ snd (feed defaultReceiver [[xc0; xa0]; hello; [xc0]])
     = [EmitBuffer (tl hello)]
  /\ unterminatedMessage (fst (feed defaultReceiver [[xc0; xa0]; hello]))
     = Some hello
  /\ snd (feed defaultReceiver
            [[xc0; xa0]; hello; Buffer_from_string " wor";
             Buffer_from_string "ld!"; [xc0]])
     = [EmitBuffer (Buffer_from_string "d!")].
Proof. repeat split; reflexivity. Qed.

(** C3. Construction does not fail when [portIndex] is absent: line 199
    replaces an absent (or falsy) port index by 0, so that the test of line
    201, whose error message speaks of a sender without a portIndex config
    property, passes, and the sender is built for port 0. *)
Theorem C3_absent_portIndex_is_accepted :
  opt_portIndex noOpts = None
  /\ exists this,
       newSender noOpts = Ok this
       /\ portIndex this = num_of_Z 0
       /\ dataStart this = [xc0; x00]
       /\ pushed this = [].
Proof. split; [reflexivity|]. eexists. repeat split; reflexivity. Qed.

(** C4. At the end of the stream [_flush] pushes one message for a buffered
    run, shaped by the options, but it does not unescape it. After the chunk
    [0xC0, 0xA0, 0xDB, 0xDC] the buffer holds 0xA0 0xDB 0xDC; [_flush]
    pushes 0xDB 0xDC where [interpretMessage] gives 0xC0 for the same
    run. *)
Theorem C4_flush_does_not_unescape :
  let this := fst (receiver_transform defaultReceiver [xc0; xa0; xdb; xdc]) in
  unterminatedMessage this = Some [xa0; xdb; xdc]
  /\ receiver_flush this = [EmitBuffer [xdb; xdc]]
  /\ interpretMessage this [xa0; xdb; xdc] = EmitBuffer [xc0].
Proof. repeat split; reflexivity. Qed.

(** C5. A write to a constructed sender pushes exactly one frame: the
    marker 0xC0, the data command byte [(portIndex << 4) | 0] of the sender's
    port, which is in 0..15, the escaped payload (every 0xC0 as 0xDB 0xDC,
    every 0xDB as 0xDB 0xDD, every other byte as it is) and the marker 0xC0.
    Writing [0xC0, 0xDB] to a sender of port 12 pushes
    [0xC0, 0xC0, 0xDB, 0xDC, 0xDB, 0xDD, 0xC0]. *)
Theorem C5_write_emits_one_data_frame :
  (forall (this : KISSSender) (c : chunk),
      constructed this ->
      (0 <= portIndex_Z (portIndex this) <= 15)%Z
      /\ pushed (sender_transform this c)
         = pushed this
           ++ [[FEND;
                byte_of_Z (Z.lor (Z.shiftl (portIndex_Z (portIndex this)) 4) 0)]
                 ++ escape (chunk_bytes c) ++ [FEND]])
  /\ (exists this,
         newSender (portOpts 12) = Ok this
         /\ pushed this = []
         /\ pushed (sender_transform this (ChunkBuffer [xc0; xdb]))
            = [[xc0; xc0; xdb; xdc; xdb; xdd; xc0]]).
Proof.
  split.
  - intros this c Hc.
    destruct (constructed_fields this Hc) as (Hv & Hstart & Hend).
    split; [now apply valid_portIndex_range|].
    unfold sender_transform, push. cbn [pushed].
    now rewrite Hstart, Hend, kissEscape_spec.
  - eexists. repeat split; reflexivity.
Qed.

Lemma C5_write_witness :
  exists this,
    constructed this
    /\ (0 <= portIndex_Z (portIndex this) <= 15)%Z
    /\ pushed (sender_transform this (ChunkString "hello"))
       = pushed this
         ++ [[FEND;
              byte_of_Z (Z.lor (Z.shiftl (portIndex_Z (portIndex this)) 4) 0)]
               ++ escape (chunk_bytes (ChunkString "hello")) ++ [FEND]].
Proof.
  assert (Hc : constructed
                 (fold_left
                    (forEach_body (portOpts 12) (getCommandBuilder (num_of_Z 12)))
                    properties
                    (mkSender (num_of_Z 12) [xc0; xc0] [xc0] (fun _ => None) [])))
    by (apply (constructed_new (portOpts 12)); reflexivity).
  eexists. split; [exact Hc|].
  exact (proj1 C5_write_emits_one_data_frame _ (ChunkString "hello") Hc).
Defined.

(** C6. A sender constructed with port 12 and [slotTime] 420 has pushed
    the one frame [0xC0, 0xC3, 0x2A, 0xC0], and the frame of a write comes
    after it. For each of [slotTime], [txDelay] and [txTail] given as an
    integer [v] of magnitude below 2^53 and other than 0, a constructed
    sender has pushed the frame of the marker, the command byte of the field
    for its port, the byte of [v / 10] (its integer quotient by 10, modulo
    256) and the marker. For each of the three given as a falsy number (zero
    or NaN), it has pushed no frame with the command byte of the field. *)
Theorem C6_time_fields_divided_by_ten :
  (exists this,
      newSender
        (mkSenderOpts (Some (num_of_Z 12)) None None None
           (Some (num_of_Z 420)) None None) = Ok this
      /\ pushed this = [[xc0; xc3; x2a; xc0]]
      /\ forall c, pushed (sender_transform this c)
                   = [[xc0; xc3; x2a; xc0];
                      [xc0; xc0] ++ escape (chunk_bytes c) ++ [xc0]])
  /\ (forall (opts : senderOpts) (this : KISSSender) (t : property) (v : Z),
         newSender opts = Ok this ->
         timeField opts t = Some (num_of_Z v) ->
         safe_integer v ->
         v <> 0%Z ->
         In [FEND; commandByte (portIndex this) t; byte_of_Z (v ÷ 10); FEND]
            (pushed this))
  /\ (forall (opts : senderOpts) (this : KISSSender) (t : property)
             (n : number),
         newSender opts = Ok this ->
         timeField opts t = Some n ->
         number_truthy n = false ->
         forall f, In f (pushed this) ->
                   at_ f 1 <> Some (commandByte (portIndex this) t)).
Proof.
  split; [|split].
  - eexists. split; [reflexivity|]. split; [reflexivity|].
    intros c. unfold sender_transform, push. cbn [pushed].
    now rewrite kissEscape_spec.
  - intros opts this t v Hnew Hfield Hsafe Hv.
    destruct (timeField_get opts t _ Hfield) as [Ht Hget].
    pose proof (stored_time t (num_of_Z v) Ht) as Hstored.
    assert (Htruthy : number_truthy (num_of_Z v) = true)
      by (rewrite number_truthy_num_of_Z; now destruct (Z.eqb_spec v 0)).
    rewrite Htruthy in Hstored.
    apply (pushed_frames opts this _ Hnew). exists t, (VNum (num_of_Z v)).
    rewrite Hstored. cbn [truthy value_bytes element_ToUint8 app].
    rewrite number_truthy_div10, ToUint8_div10 by assumption.
    repeat split; [assumption|]. now destruct (Z.eqb_spec v 0).
  - intros opts this t n Hnew Hfield Hfalsy f Hin Hat.
    destruct (timeField_get opts t _ Hfield) as [Ht Hget].
    pose proof (stored_time t n Ht) as Hstored. rewrite Hfalsy in Hstored.
    destruct (pushed_frame_of_command opts this f t Hnew Hin Hat)
      as (v & Hget' & Htruthy & _).
    rewrite Hget in Hget'. injection Hget' as <-.
    rewrite Hstored in Htruthy. discriminate.
Qed.

Lemma C6_time_fields_witness :
  exists this,
    newSender (mkSenderOpts None None None None
                 (Some (num_of_Z 425)) (Some (num_of_Z 0)) None) = Ok this
    /\ In [FEND; commandByte (portIndex this) slotTime; byte_of_Z (425 ÷ 10);
           FEND]
          (pushed this)
    /\ (forall f, In f (pushed this) ->
                  at_ f 1 <> Some (commandByte (portIndex this) txDelay)).
Proof.
  set (opts := mkSenderOpts None None None None
                 (Some (num_of_Z 425)) (Some (num_of_Z 0)) None).
  assert (Hnew : exists this, newSender opts = Ok this)
    by (eexists; reflexivity).
  destruct Hnew as [this Hnew]. exists this. split; [exact Hnew|].
  destruct C6_time_fields_divided_by_ten as (_ & Htruthy & Hfalsy). split.
  - apply (Htruthy opts this slotTime 425%Z Hnew);
      [reflexivity | split; reflexivity | discriminate].
  - apply (Hfalsy opts this txDelay (num_of_Z 0) Hnew);
      [reflexivity | reflexivity].
Defined.

(** C7. A malformed escape sequence that comes after an escaped escape
    marker is not dropped as a pair. In the content 0xDB 0xDD 0xDB 0x41 0x42
    the loop of [interpretMessage] restores 0xDB from the first pair, searches
    again from the start, takes the restored byte for a marker and drops it
    with the 0xDB that follows; the byte 0x41 after the malformed marker is
    kept and the message decodes to 0x41 0x42, where dropping the malformed
    pair 0xDB 0x41 gives 0xDB 0x42. No error is raised. *)
Theorem C7_malformed_pair_after_escaped_marker :
  unescape_loop [xdb; xdd; xdb; x41; x42] = [x41; x42]
  /\ unescape [xdb; xdd; xdb; x41; x42] = [xdb; x42]
  /\ interpretMessage defaultReceiver (xa0 :: [xdb; xdd; xdb; x41; x42])
     = EmitBuffer [x41; x42]
  /\ snd (receiver_transform defaultReceiver
            [xc0; xa0; xdb; xdd; xdb; x41; x42; xc0])
     = [EmitBuffer [x41; x42]].
Proof. repeat split; reflexivity. Qed.

(** C8. Boundary markers that directly follow a boundary marker, in the same
    chunk or at the head of the next chunk, never make the receiver emit
    anything: the stream with the extra markers and the stream without them
    give the same messages and leave the same receiver, whatever was fed
    before and is fed after. A stream of markers alone emits nothing, also
    at its end. [_transform] has no error to raise. *)
Theorem C8_adjacent_markers_emit_nothing :
  (forall (this : KISSReceiver) (before after : list (list byte))
          (pre post : list byte) (n : nat),
      feed this (before ++ [pre ++ FEND :: repeat FEND n ++ post] ++ after)
      = feed this (before ++ [pre ++ FEND :: post] ++ after))
  /\ (forall (this : KISSReceiver) (before after : list (list byte))
             (pre post : list byte) (n : nat),
         feed this (before ++ [pre ++ [FEND]; repeat FEND n ++ post] ++ after)
         = feed this (before ++ [pre ++ [FEND]; post] ++ after))
  /\ (forall (opts : receiverOpts) (ns : list nat),
         feed_end (newReceiver opts) (map (repeat FEND) ns) = []).
Proof.
  split; [|split].
  - intros this before after pre post n. apply feed_exchange.
    intros t. simpl. now rewrite receiver_transform_extra_markers.
  - intros this before after pre post n. apply feed_exchange.
    intros t. simpl.
    pose proof (receiver_transform_idle t pre) as Hidle.
    destruct (receiver_transform t (pre ++ [FEND])) as [t1 out1].
    simpl in Hidle.
    now rewrite receiver_transform_leading_markers.
  - intros opts ns. unfold feed_end.
    now rewrite feed_markers_only.
Qed.

(** C9. In object mode the data of the record is not always the unescaped
    content. The frame 0xC0 0xA3 0xDB 0xDD 0xC0, whose content is the escape
    of the one-byte payload 0xDB, makes a receiver constructed with
    [emitObject] true emit the record of port 10, which is 0xA3 >> 4, with
    empty data, where the unescaped content is the byte 0xDB; the same
    record is emitted when [emitCommandByte] is true as well. *)
Theorem C9_object_mode_data_loses_escape_marker :
  kissEscape (ChunkBuffer [xdb]) = [xdb; xdd]
  /\ unescape [xdb; xdd] = [xdb]
  /\ N.shiftr (Byte.to_N xa3) 4 = 10%N
  /\ receiver_transform (newReceiver (mkReceiverOpts false true))
       [xc0; xa3; xdb; xdd; xc0]
     = (newReceiver (mkReceiverOpts false true), [EmitObject 10 []])
  /\ receiver_transform (newReceiver (mkReceiverOpts true true))
       [xc0; xa3; xdb; xdd; xc0]
     = (newReceiver (mkReceiverOpts true true), [EmitObject 10 []]).
Proof. repeat split; reflexivity. Qed.

(** C10. No range check is made on [persistence]: with a port index [p] in
    0..15 and an integer persistence [v] outside 0..255, construction
    succeeds and pushes a persistence frame, the only pushed frame with the
    persistence command byte [16 p + 2], whose single value byte is [v]
    modulo 256. With port 12 and persistence 300 the frame is
    [0xC0, 0xC2, 0x2C, 0xC0], and 0x2C is 44. *)
Theorem C10_persistence_modulo_256 :
  (forall (opts : senderOpts) (p v : Z),
      (0 <= p <= 15)%Z -> (v < 0 \/ 255 < v)%Z ->
      opt_portIndex opts = Some (num_of_Z p) ->
      opt_persistence opts = Some (num_of_Z v) ->
      exists (this : KISSSender) (valueByte : byte),
        newSender opts = Ok this
        /\ In [FEND; byte_of_Z (16 * p + 2); valueByte; FEND] (pushed this)
        /\ (forall f, In f (pushed this) ->
                      at_ f 1 = Some (byte_of_Z (16 * p + 2)) ->
                      f = [FEND; byte_of_Z (16 * p + 2); valueByte; FEND])
        /\ Z.of_N (Byte.to_N valueByte) = (v mod 256)%Z)
  /\ pushed_of
       (newSender
          (mkSenderOpts (Some (num_of_Z 12)) None None
             (Some (num_of_Z 300)) None None None))
     = Some [[xc0; xc2; x2c; xc0]].
Proof.
  split; [|reflexivity].
  intros opts p v Hp Hv Hport Hpers.
  assert (Hvalid : valid_portIndex (or_zero (opt_portIndex opts)) = true)
    by (rewrite Hport, or_zero_num_of_Z; now apply valid_portIndex_num_of_Z).
  destruct (newSender_valid opts Hvalid) as [this Hnew].
  destruct (newSender_Ok opts this Hnew) as (_ & Hidx & _).
  rewrite Hport, or_zero_num_of_Z in Hidx.
  assert (Hcmd : commandByte (portIndex this) persistence
                 = byte_of_Z (16 * p + 2))
    by (rewrite Hidx; now apply commandByte_num_of_Z).
  assert (Hget : opts_get opts persistence = Some (VNum (num_of_Z v)))
    by (simpl; now rewrite Hpers).
  assert (Htruthy : truthy (stored persistence (VNum (num_of_Z v))) = true).
  { cbn. change (number_truthy (num_of_Z v) = true).
    rewrite number_truthy_num_of_Z. destruct (Z.eqb_spec v 0); [lia|reflexivity]. }
  exists this, (byte_of_Z v). split; [exact Hnew|]. split; [|split].
  - apply (pushed_frames opts this _ Hnew). exists persistence, (VNum (num_of_Z v)).
    repeat split; try assumption.
    rewrite Hcmd. cbn [stored is_time property_eqb value_bytes element_ToUint8 app].
    now rewrite ToUint8_num_of_Z.
  - intros f Hin Hat. rewrite <- Hcmd in Hat.
    destruct (pushed_frame_of_command opts this f persistence Hnew Hin Hat)
      as (v' & Hget' & _ & ->).
    rewrite Hget in Hget'. injection Hget' as <-.
    rewrite Hcmd. cbn [stored is_time property_eqb value_bytes element_ToUint8 app].
    now rewrite ToUint8_num_of_Z.
  - apply byte_of_Z_to_N.
Qed.

Lemma C10_persistence_witness :
  exists (this : KISSSender) (valueByte : byte),
    newSender (mkSenderOpts (Some (num_of_Z 3)) (Some true) None
                 (Some (num_of_Z (-1))) None None None) = Ok this
    /\ In [FEND; byte_of_Z (16 * 3 + 2); valueByte; FEND] (pushed this)
    /\ (forall f, In f (pushed this) ->
                  at_ f 1 = Some (byte_of_Z (16 * 3 + 2)) ->
                  f = [FEND; byte_of_Z (16 * 3 + 2); valueByte; FEND])
    /\ Z.of_N (Byte.to_N valueByte) = ((-1) mod 256)%Z.
Proof.
  apply (proj1 C10_persistence_modulo_256
           (mkSenderOpts (Some (num_of_Z 3)) (Some true) None
              (Some (num_of_Z (-1))) None None None) 3%Z (-1)%Z);
    [lia | lia | reflexivity | reflexivity].
Defined.

(** * Further properties of the code *)

(** ** The escaper *)

Lemma escape_byte_no_FEND (x : byte) : ~ In FEND (escape_byte x).
Proof.
  unfold escape_byte.
  destruct (byte_eqb_spec x FEND) as [->|Hend].
  - intros [H|[H|[]]]; discriminate.
  - destruct (byte_eqb_spec x FESC) as [->|Hesc].
    + intros [H|[H|[]]]; discriminate.
    + intros [H|[]]. congruence.
Qed.

Lemma escape_no_FEND (b : list byte) : ~ In FEND (escape b).
Proof.
  unfold escape. rewrite in_flat_map. intros (x & _ & Hx).
  now apply (escape_byte_no_FEND x).
Qed.

Lemma escape_app (b1 b2 : list byte) : escape (b1 ++ b2) = escape b1 ++ escape b2.
Proof. unfold escape. apply flat_map_app. Qed.

Lemma escape_length (b : list byte) :
  length (escape b) = length b + length (filter reserved b).
Proof.
  induction b as [|x b IH]; [reflexivity|].
  unfold escape. cbn [flat_map filter]. fold (escape b).
  rewrite length_app, IH. unfold escape_byte, reserved.
  destruct (Byte.eqb x FEND); [simpl; lia|].
  destruct (Byte.eqb x FESC); simpl; lia.
Qed.

Lemma escape_inj (b1 b2 : list byte) : escape b1 = escape b2 -> b1 = b2.
Proof.
  intros H. apply (f_equal unescape) in H. now rewrite !unescape_escape in H.
Qed.

(** X1. [kissEscape], a loop over an index that splices two bytes in place
    of a reserved one, is the byte-wise substitution: every 0xC0 becomes
    0xDB 0xDC, every 0xDB becomes 0xDB 0xDD, every other byte stays, in
    order, for a string as for a Buffer. *)
Theorem X1_kissEscape_bytewise (c : chunk) :
  kissEscape c
  = flat_map
      (fun x => if Byte.eqb x FEND then [FESC; TFEND]
                else if Byte.eqb x FESC then [FESC; TFESC]
                else [x])
      (chunk_bytes c).
Proof. apply kissEscape_spec. Qed.

(** X2. The output of [kissEscape] never holds the boundary marker 0xC0,
    whatever the payload. *)
Theorem X2_kissEscape_has_no_marker (c : chunk) : ~ In FEND (kissEscape c).
Proof. rewrite kissEscape_spec. apply escape_no_FEND. Qed.

(** X3. [kissEscape] adds one byte for each reserved byte of the payload and
    nothing else: the length of its output is the length of the payload plus
    the number of its bytes equal to 0xC0 or 0xDB, hence between that length
    and its double. *)
Theorem X3_kissEscape_length (c : chunk) :
  length (kissEscape c)
  = length (chunk_bytes c) + length (filter reserved (chunk_bytes c))
  /\ length (chunk_bytes c) <= length (kissEscape c) <= 2 * length (chunk_bytes c).
Proof.
  rewrite kissEscape_spec, escape_length.
  pose proof (filter_length_le reserved (chunk_bytes c)). lia.
Qed.

(** X4. [kissEscape] loses nothing: two chunks with the same escaped bytes
    have the same bytes. *)
Theorem X4_kissEscape_injective (c1 c2 : chunk) :
  kissEscape c1 = kissEscape c2 -> chunk_bytes c1 = chunk_bytes c2.
Proof. rewrite !kissEscape_spec. apply escape_inj. Qed.

Lemma X4_kissEscape_injective_witness :
  chunk_bytes (ChunkString "hi") = chunk_bytes (ChunkBuffer [x68; x69]).
Proof.
  apply (X4_kissEscape_injective (ChunkString "hi") (ChunkBuffer [x68; x69])).
  reflexivity.
Defined.

(** X5. Escaping goes through concatenation: the escape of two payloads put
    end to end is the two escapes put end to end, so that a payload can be
    escaped in pieces. *)
Theorem X5_kissEscape_concatenation (b1 b2 : list byte) :
  kissEscape (ChunkBuffer (b1 ++ b2))
  = kissEscape (ChunkBuffer b1) ++ kissEscape (ChunkBuffer b2).
Proof. rewrite !kissEscape_spec. apply escape_app. Qed.

(** ** The unescaping loop *)

Lemma unescape_loop_id (content : list byte) :
  ~ In FESC content -> unescape_loop content = content.
Proof.
  intros H. apply indexOf_None in H. now rewrite unescape_loop_eq, H.
Qed.

Lemma unescape_loop_length (content : list byte) :
  length (unescape_loop content) <= length content.
Proof.
  induction content as [content IH] using list_length_ind.
  rewrite unescape_loop_eq.
  destruct (indexOf FESC content) as [i|] eqn:Hi; [|lia].
  pose proof (unescape_splice_shorter content i Hi) as Hlt.
  specialize (IH _ Hlt). lia.
Qed.

(** X6. Decoding what [kissEscape] made gives the payload back exactly when
    the payload holds no escape marker 0xDB: the loop of [interpretMessage]
    undoes the escapes of 0xC0 and breaks on those of 0xDB. *)
Theorem X6_roundtrip_exactly_without_escape_marker (c : chunk) :
  unescape_loop (kissEscape c) = chunk_bytes c <-> ~ In FESC (chunk_bytes c).
Proof. apply roundtrip_iff. Qed.

(** X7. Whatever the message and the options, the content that
    [interpretMessage] delivers (the data of the record, the Buffer, or the
    Buffer after its command byte) holds no byte 0xDB and is no longer than
    the content received. *)
Theorem X7_decoded_content_has_no_escape_marker
    (this : KISSReceiver) (commandByte : byte) (content : list byte) :
  exists data,
    (interpretMessage this (commandByte :: content)
     = EmitObject (N.shiftr (Byte.to_N commandByte) 4) data
     \/ interpretMessage this (commandByte :: content)
        = EmitBuffer (commandByte :: data)
     \/ interpretMessage this (commandByte :: content) = EmitBuffer data)
    /\ ~ In FESC data
    /\ length data <= length content.
Proof.
  exists (unescape_loop content). split; [|split].
  - unfold interpretMessage. cbn [hd_error tl shr4 withCommandByte].
    destruct (readableObjectMode this); [now left|].
    destruct (emitCommandByte this); [right; now left | right; now right].
  - apply unescape_loop_no_FESC.
  - apply unescape_loop_length.
Qed.

(** X8. The unescaping loop is idempotent: run on a content that it has
    already decoded, it changes nothing. *)
Theorem X8_unescape_loop_idempotent (content : list byte) :
  unescape_loop (unescape_loop content) = unescape_loop content.
Proof. apply unescape_loop_id, unescape_loop_no_FESC. Qed.

(** X9. When the escape marker that the loop finds (the first 0xDB, at
    index [i]) is followed by 0xDC, the pair is decoded to the boundary
    marker 0xC0: the bytes before it are kept, and decoding goes on with the
    bytes after the pair. *)
Theorem X9_escaped_marker_decoded (content : list byte) (i : nat) :
  indexOf FESC content = Some i ->
  at_ content (i + 1) = Some TFEND ->
  unescape_loop content
  = firstn i content ++ FEND :: unescape_loop (skipn (i + 2) content).
Proof.
  intros Hi Hx. rewrite unescape_loop_eq, Hi, Hx.
  cbn [replacementMap spliceItems]. rewrite byte_eqb_refl.
  unfold splice.
  change (firstn i content ++ [FEND] ++ skipn (i + 2) content)
    with (firstn i content ++ ([FEND] ++ skipn (i + 2) content)).
  rewrite unescape_loop_prefix by (now apply indexOf_Some in Hi).
  f_equal. apply (unescape_loop_prefix [FEND]).
  intros [H|[]]. discriminate.
Qed.

Lemma X9_escaped_marker_witness :
  unescape_loop [x41; xdb; xdc; x42]
  = firstn 1 [x41; xdb; xdc; x42]
      ++ FEND :: unescape_loop (skipn (1 + 2) [x41; xdb; xdc; x42]).
Proof.
  apply (X9_escaped_marker_decoded [x41; xdb; xdc; x42] 1);
    [reflexivity | reflexivity].
Defined.

(** X10. An escape marker that is the last byte of the content, with no
    earlier one, is dropped alone: the content decodes to the bytes before
    it. *)
Theorem X10_trailing_escape_marker_dropped (content : list byte) (i : nat) :
  indexOf FESC content = Some i ->
  i + 1 = length content ->
  unescape_loop content = firstn i content.
Proof.
  intros Hi Hlast. rewrite unescape_loop_eq, Hi.
  rewrite replacementMap_at_end by lia. cbn [spliceItems].
  unfold splice. rewrite skipn_all2 by lia. cbn [app]. rewrite app_nil_r.
  apply unescape_loop_id. now apply indexOf_Some in Hi.
Qed.

Lemma X10_trailing_escape_marker_witness :
  unescape_loop [x41; x42; xdb] = firstn 2 [x41; x42; xdb].
Proof.
  apply (X10_trailing_escape_marker_dropped [x41; x42; xdb] 2);
    [reflexivity | reflexivity].
Defined.

(** ** The receiver, chunk by chunk *)

Lemma transform_loop_no_marker (received : list byte)
    (u : option (list byte)) (msgs : list (list byte)) :
  ~ In FEND received ->
  transform_loop received u msgs = (received, (u, msgs)).
Proof.
  intros H. apply indexOf_None in H. now rewrite transform_loop_eq, H.
Qed.

(** What the loop leaves of the chunk holds no marker. *)
Lemma transform_loop_remainder (received : list byte)
    (u : option (list byte)) (msgs : list (list byte)) :
  ~ In FEND (fst (transform_loop received u msgs)).
Proof.
  revert u msgs.
  induction received as [received IH] using list_length_ind. intros u msgs.
  destruct (chunk_first_run received) as [Hnin | (m & rest & -> & Hm & Hlen)].
  - now rewrite transform_loop_no_marker.
  - rewrite transform_loop_run by assumption. now apply IH.
Qed.

(** The loop leaves the partial buffer as it was or empties it. *)
Lemma transform_loop_buffer (received : list byte)
    (u : option (list byte)) (msgs : list (list byte)) :
  fst (snd (transform_loop received u msgs)) = u
  \/ fst (snd (transform_loop received u msgs)) = None.
Proof.
  revert u msgs.
  induction received as [received IH] using list_length_ind. intros u msgs.
  destruct (chunk_first_run received) as [Hnin | (m & rest & -> & Hm & Hlen)].
  - rewrite transform_loop_no_marker by assumption. now left.
  - rewrite transform_loop_run by assumption.
    destruct (IH rest Hlen (fst (run_closed m u msgs))
                (snd (run_closed m u msgs))) as [H|H]; [|now right].
    rewrite H. destruct m, u; simpl; tauto.
Qed.

Lemma transform_start_buffer (received : list byte) (u : option (list byte)) :
  fst (transform_start received u) = u \/ fst (transform_start received u) = None.
Proof.
  unfold transform_start. destruct (at_ received 0) as [b|], u as [l|];
    try (now left). destruct (Byte.eqb b FEND); simpl; tauto.
Qed.

Lemma receiver_transform_buffer_ok (this : KISSReceiver) (c : list byte) :
  buffer_ok (unterminatedMessage this) ->
  buffer_ok (unterminatedMessage (fst (receiver_transform this c))).
Proof.
  intros Hok. unfold receiver_transform.
  set (start := transform_start c (unterminatedMessage this)).
  pose proof (transform_loop_remainder c (fst start) (snd start)) as Hrem.
  pose proof (transform_loop_buffer c (fst start) (snd start)) as Hbuf.
  pose proof (transform_start_buffer c (unterminatedMessage this)) as Hstart.
  fold start in Hstart.
  destruct (transform_loop c (fst start) (snd start)) as [r [u msgs]].
  cbn [fst snd unterminatedMessage] in *.
  destruct r as [|b r]; cbn [length Nat.ltb Nat.leb].
  - destruct Hbuf as [->| ->]; [|exact I].
    destruct Hstart as [->| ->]; [assumption | exact I].
  - split; [discriminate | assumption].
Qed.

(** X11. The partial buffer of a receiver is at every moment absent or a
    run that is not empty and holds no boundary marker: this holds for a new
    receiver and after any sequence of chunks, so that [_flush] and the
    closing of a run never meet an empty buffered message. *)
Theorem X11_partial_buffer_invariant
    (opts : receiverOpts) (chunks : list (list byte)) :
  buffer_ok (unterminatedMessage (fst (feed (newReceiver opts) chunks))).
Proof.
  assert (Hfeed : forall chunks this,
             buffer_ok (unterminatedMessage this) ->
             buffer_ok (unterminatedMessage (fst (feed this chunks)))).
  { clear chunks. induction chunks as [|c chunks IH]; intros this Hok.
    - exact Hok.
    - cbn [feed].
      pose proof (receiver_transform_buffer_ok this c Hok) as H1.
      destruct (receiver_transform this c) as [this1 out1].
      specialize (IH this1 H1).
      destruct (feed this1 chunks) as [this2 out2]. exact IH. }
  apply Hfeed. exact I.
Qed.

Lemma transform_loop_frames (frames : list (list byte))
    (msgs : list (list byte)) :
  Forall (fun m => m <> [] /\ ~ In FEND m) frames ->
  transform_loop (concat (map (fun m => FEND :: m ++ [FEND]) frames)) None msgs
  = ([], (None, msgs ++ frames)).
Proof.
  intros Hframes. revert msgs.
  induction Hframes as [|m frames [Hne Hm] _ IH]; intros msgs.
  - cbn. now rewrite transform_loop_nil, app_nil_r.
  - cbn [map concat]. cbn [app]. rewrite <- app_assoc. cbn [app].
    rewrite transform_loop_marker, transform_loop_run by assumption.
    destruct m as [|b m]; [congruence|]. cbn [run_closed fst snd].
    rewrite IH, <- app_assoc. reflexivity.
Qed.

Lemma with_buffer_same (this : KISSReceiver) :
  with_buffer this (unterminatedMessage this) = this.
Proof. now destruct this. Qed.

(** X12. A chunk made of complete frames, each a run that is not empty and
    holds no marker, between two markers, makes a receiver with nothing
    buffered emit one message for each frame, in order, the interpretation
    of that frame, and leaves it with nothing buffered. *)
Theorem X12_complete_frames_in_one_chunk
    (this : KISSReceiver) (frames : list (list byte)) :
  unterminatedMessage this = None ->
  Forall (fun m => m <> [] /\ ~ In FEND m) frames ->
  receiver_transform this (concat (map (fun m => FEND :: m ++ [FEND]) frames))
  = (this, map (interpretMessage this) frames).
Proof.
  intros Hidle Hframes. unfold receiver_transform.
  rewrite Hidle, transform_start_None. cbn [fst snd].
  rewrite transform_loop_frames by assumption. cbn.
  rewrite <- Hidle. fold (with_buffer this (unterminatedMessage this)).
  now rewrite with_buffer_same.
Qed.

Lemma X12_complete_frames_witness :
  receiver_transform defaultReceiver
    (concat (map (fun m => FEND :: m ++ [FEND]) [[xa0; x68]; [x10; xdb; xdc]]))
  = (defaultReceiver,
     map (interpretMessage defaultReceiver) [[xa0; x68]; [x10; xdb; xdc]]).
Proof.
  apply (X12_complete_frames_in_one_chunk defaultReceiver
           [[xa0; x68]; [x10; xdb; xdc]]).
  - reflexivity.
  - repeat constructor; try discriminate;
      intros H; simpl in H;
      repeat (destruct H as [H|H]; [discriminate H|]); exact H.
Defined.

Lemma receiver_transform_no_marker (this : KISSReceiver) (c : list byte) :
  c <> [] -> ~ In FEND c ->
  receiver_transform this c = (with_buffer this (Some c), []).
Proof.
  intros Hne Hc. unfold receiver_transform.
  assert (Hstart : transform_start c (unterminatedMessage this)
                   = (unterminatedMessage this, [])).
  { unfold transform_start. destruct c as [|b c]; [congruence|]. cbn [at_ nth_error].
    destruct (unterminatedMessage this); [|reflexivity].
    rewrite byte_eqb_neq; [reflexivity|]. intros ->. apply Hc. now left. }
  rewrite Hstart. cbn [fst snd].
  rewrite transform_loop_no_marker by assumption.
  destruct c as [|b c]; [congruence|]. reflexivity.
Qed.

(** X13. A chunk that is not empty and holds no boundary marker makes the
    receiver emit nothing, and becomes its partial buffer, whatever was
    buffered before. *)
Theorem X13_chunk_without_marker_is_buffered
    (this : KISSReceiver) (c : list byte) :
  c <> [] -> ~ In FEND c ->
  receiver_transform this c = (with_buffer this (Some c), []).
Proof. apply receiver_transform_no_marker. Qed.

Lemma X13_chunk_without_marker_witness :
  receiver_transform (with_buffer defaultReceiver (Some [xa0])) [x68; x69]
  = (with_buffer (with_buffer defaultReceiver (Some [xa0])) (Some [x68; x69]),
     []).
Proof.
  apply (X13_chunk_without_marker_is_buffered
           (with_buffer defaultReceiver (Some [xa0])) [x68; x69]).
  - discriminate.
  - intros H; simpl in H.
    repeat (destruct H as [H|H]; [discriminate H|]). exact H.
Defined.

(** X14. A chunk that begins with a boundary marker, received while a run is
    buffered, first emits the interpretation of the buffered run; the rest
    of the chunk is then handled as by a receiver with nothing buffered. *)
Theorem X14_leading_marker_closes_buffer
    (this : KISSReceiver) (u rest : list byte) :
  unterminatedMessage this = Some u ->
  receiver_transform this (FEND :: rest)
  = (fst (receiver_transform (with_buffer this None) rest),
     interpretMessage this u
       :: snd (receiver_transform (with_buffer this None) rest)).
Proof.
  intros Hu. unfold receiver_transform.
  cbn [with_buffer unterminatedMessage readableObjectMode emitCommandByte].
  rewrite Hu, transform_start_None.
  assert (Hstart : transform_start (FEND :: rest) (Some u) = (None, [u]))
    by reflexivity.
  rewrite Hstart. cbn [fst snd].
  rewrite transform_loop_marker.
  change [u] with ([u] ++ []).
  rewrite transform_loop_messages_app.
  destruct (transform_loop rest None []) as [r [u' msgs]].
  cbn [fst snd app map]. reflexivity.
Qed.

Lemma X14_leading_marker_witness :
  receiver_transform (with_buffer defaultReceiver (Some [xa0; x68]))
    (FEND :: [x10; x69; xc0])
  = (fst (receiver_transform
            (with_buffer (with_buffer defaultReceiver (Some [xa0; x68])) None)
            [x10; x69; xc0]),
     interpretMessage (with_buffer defaultReceiver (Some [xa0; x68])) [xa0; x68]
       :: snd (receiver_transform
                 (with_buffer (with_buffer defaultReceiver (Some [xa0; x68])) None)
                 [x10; x69; xc0])).
Proof.
  apply (X14_leading_marker_closes_buffer
           (with_buffer defaultReceiver (Some [xa0; x68])) [xa0; x68]
           [x10; x69; xc0]).
  reflexivity.
Defined.

(** The number of boundary markers of a chunk. *)
Lemma transform_loop_count (received : list byte)
    (u : option (list byte)) (msgs : list (list byte)) :
  length (snd (snd (transform_loop received u msgs)))
  <= length msgs + length (filter (fun x => Byte.eqb x FEND) received).
Proof.
  revert u msgs.
  induction received as [received IH] using list_length_ind. intros u msgs.
  destruct (chunk_first_run received) as [Hnin | (m & rest & -> & Hm & Hlen)].
  - rewrite transform_loop_no_marker by assumption. cbn [fst snd]. lia.
  - rewrite transform_loop_run by assumption.
    specialize (IH rest Hlen (fst (run_closed m u msgs))
                  (snd (run_closed m u msgs))).
    rewrite filter_app, length_app. cbn [filter]. rewrite byte_eqb_refl.
    cbn [length].
    assert (Hrun : length (snd (run_closed m u msgs)) <= length msgs + 1).
    { destruct m, u; cbn [run_closed snd]; rewrite ?length_app; simpl; lia. }
    lia.
Qed.

(** X15. A call of [_transform] never emits more messages than its chunk
    has boundary markers; in particular a chunk without marker emits
    nothing. *)
Theorem X15_no_more_messages_than_markers
    (this : KISSReceiver) (c : list byte) :
  length (snd (receiver_transform this c))
  <= length (filter (fun x => Byte.eqb x FEND) c).
Proof.
  unfold receiver_transform.
  set (start := transform_start c (unterminatedMessage this)).
  assert (Hloop : length (snd (snd (transform_loop c (fst start) (snd start))))
                  <= length (filter (fun x => Byte.eqb x FEND) c)).
  { subst start. unfold transform_start.
    destruct c as [|b c].
    - cbn [at_ nth_error]. rewrite transform_loop_nil. simpl. lia.
    - cbn [at_ nth_error].
      destruct (unterminatedMessage this) as [u|].
      + destruct (byte_eqb_spec b FEND) as [->|Hb].
        * cbn [fst snd]. rewrite transform_loop_marker.
          pose proof (transform_loop_count c None [u]) as H.
          cbn [filter]. rewrite byte_eqb_refl. simpl in *. lia.
        * pose proof (transform_loop_count (b :: c) (Some u) []) as H.
          cbn [fst snd]. simpl in *. lia.
      + pose proof (transform_loop_count (b :: c) None []) as H.
        cbn [fst snd]. simpl in *. lia. }
  destruct (transform_loop c (fst start) (snd start)) as [r [u msgs]].
  cbn [fst snd] in *. now rewrite length_map.
Qed.

(** X16. After a stream whose last chunk ends with a boundary marker,
    [_flush] emits nothing: all that the stream emits was emitted by the
    [_transform] calls. *)
Theorem X16_terminated_stream_flushes_nothing
    (this : KISSReceiver) (chunks : list (list byte)) (c : list byte) :
  feed_end this (chunks ++ [c ++ [FEND]])
  = snd (feed this (chunks ++ [c ++ [FEND]])).
Proof.
  unfold feed_end. rewrite feed_app. cbn [feed].
  set (this1 := fst (feed this chunks)).
  pose proof (receiver_transform_idle this1 c) as Hidle.
  destruct (receiver_transform this1 (c ++ [FEND])) as [this2 out2].
  cbn [fst snd] in *. unfold receiver_flush. rewrite Hidle.
  now rewrite app_nil_r.
Qed.

(** X17. A frame that is opened by a marker and never closed is delivered
    at the end of the stream: with nothing buffered before, a run that is
    not empty, holds no marker and has no 0xDB after its command byte is
    emitted by [_flush] as [interpretMessage] would emit it, and nothing is
    emitted before. *)
Theorem X17_unclosed_frame_delivered_at_end
    (this : KISSReceiver) (m : list byte) :
  unterminatedMessage this = None ->
  m <> [] -> ~ In FEND m -> ~ In FESC (tl m) ->
  feed_end this [FEND :: m] = [interpretMessage this m].
Proof.
  intros Hidle Hne Hm Hesc. unfold feed_end. cbn [feed].
  assert (Htr : receiver_transform this (FEND :: m)
                = (with_buffer this (Some m), [])).
  { rewrite <- (receiver_transform_no_marker this m Hne Hm).
    change (FEND :: m) with (repeat FEND 1 ++ m).
    now apply receiver_transform_leading_markers. }
  rewrite Htr. cbn [app].
  rewrite (receiver_flush_without_escape (with_buffer this (Some m)) m);
    [reflexivity | reflexivity | assumption | assumption].
Qed.

Lemma X17_unclosed_frame_witness :
  feed_end defaultReceiver [FEND :: [xa0; x68; x69]]
  = [interpretMessage defaultReceiver [xa0; x68; x69]].
Proof.
  apply (X17_unclosed_frame_delivered_at_end defaultReceiver [xa0; x68; x69]).
  - reflexivity.
  - discriminate.
  - intros H; simpl in H.
    repeat (destruct H as [H|H]; [discriminate H|]). exact H.
  - intros H; simpl in H.
    repeat (destruct H as [H|H]; [discriminate H|]). exact H.
Defined.

(** ** The constructor of the sender *)

Lemma Number_isInteger_num_of_Z (p : Z) : Number_isInteger (num_of_Z p) = true.
Proof.
  unfold Number_isInteger, num_of_Z, inject_Z. cbn [Qnum Qden].
  now rewrite Z.mod_1_r.
Qed.

Lemma number_lt_num_of_Z (a b : Z) :
  number_lt (num_of_Z a) (num_of_Z b) = (a <? b)%Z.
Proof.
  unfold number_lt, num_of_Z, inject_Z, Qle_bool. cbn [Qnum Qden].
  rewrite !Z.mul_1_r. now rewrite Z.ltb_antisym.
Qed.

(** X18. With an integer port index [p], construction succeeds, for the
    port [p], exactly when [p] is in 0..15; below 0 and above 15 it throws
    the error that asks for a port index between 0 and 15 inclusive. *)
Theorem X18_integer_portIndex_range (opts : senderOpts) (p : Z) :
  opt_portIndex opts = Some (num_of_Z p) ->
  ((0 <= p <= 15)%Z ->
   exists this, newSender opts = Ok this /\ portIndex this = num_of_Z p)
  /\ ((p < 0 \/ 15 < p)%Z ->
      newSender opts
      = Throw "A KISS sending Stream requires a portIndex config property between 0 and 15 inclusive").
Proof.
  intros Hport. split.
  - intros Hp.
    assert (Hvalid : valid_portIndex (or_zero (opt_portIndex opts)) = true)
      by (rewrite Hport, or_zero_num_of_Z; now apply valid_portIndex_num_of_Z).
    destruct (newSender_valid opts Hvalid) as [this Hnew].
    exists this. split; [exact Hnew|].
    destruct (newSender_Ok opts this Hnew) as (_ & -> & _).
    now rewrite Hport, or_zero_num_of_Z.
  - intros Hp. unfold newSender.
    rewrite Hport, or_zero_num_of_Z, Number_isInteger_num_of_Z.
    cbn [negb]. rewrite !number_lt_num_of_Z.
    destruct (Z.ltb_spec p 0); destruct (Z.ltb_spec 15 p);
      try reflexivity; lia.
Qed.

Lemma X18_integer_portIndex_witness :
  (exists this, newSender (portOpts 15) = Ok this
                /\ portIndex this = num_of_Z 15)
  /\ newSender (portOpts 16)
     = Throw "A KISS sending Stream requires a portIndex config property between 0 and 15 inclusive".
Proof.
  split.
  - apply (proj1 (X18_integer_portIndex_range (portOpts 15) 15 eq_refl)). lia.
  - apply (proj2 (X18_integer_portIndex_range (portOpts 16) 16 eq_refl)). lia.
Defined.

(** X19. With a port index that is a number but not an integer (a fraction,
    an infinity), construction throws the error that speaks of a missing
    portIndex config property, before any frame is pushed. *)
Theorem X19_fractional_portIndex_throws (opts : senderOpts) (n : number) :
  opt_portIndex opts = Some n ->
  number_truthy n = true ->
  Number_isInteger n = false ->
  newSender opts
  = Throw "Cannot create a KISS sending Stream without a portIndex config property".
Proof.
  intros Hport Htruthy Hint. unfold newSender, or_zero.
  now rewrite Hport, Htruthy, Hint.
Qed.

Lemma X19_fractional_portIndex_witness :
  newSender (mkSenderOpts (Some (Num (3 # 2))) None None None None None None)
  = Throw "Cannot create a KISS sending Stream without a portIndex config property".
Proof.
  apply (X19_fractional_portIndex_throws
           (mkSenderOpts (Some (Num (3 # 2))) None None None None None None)
           (Num (3 # 2)));
    reflexivity.
Defined.

(** A falsy value is stored falsy, for every property. *)
Lemma stored_falsy (p : property) (v : value) :
  truthy v = false -> truthy (stored p v) = false.
Proof.
  intros Hv. unfold stored.
  destruct p; cbn [is_time property_eqb]; rewrite ?Hv; cbn [truthy];
    try assumption; reflexivity.
Qed.

(** When the times given are integers that a double holds exactly, an
    option of the declared type is stored truthy exactly when it is
    truthy. *)
Lemma truthy_stored_safe (opts : senderOpts) (p : property) (v : value) :
  (forall t n, timeField opts t = Some n ->
               exists z, n = num_of_Z z /\ safe_integer z) ->
  opts_get opts p = Some v -> truthy (stored p v) = truthy v.
Proof.
  intros Hsafe Hget.
  destruct (truthy v) eqn:Hv; [|now apply stored_falsy].
  assert (Htime : forall n, timeField opts p = Some n -> v = VNum n ->
                            truthy (stored p v) = true).
  { intros n Hfield ->. destruct (Hsafe p n Hfield) as (z & -> & Hz).
    destruct (timeField_get opts p _ Hfield) as [Ht _].
    rewrite stored_time by assumption. cbn [truthy] in Hv. rewrite Hv.
    cbn [truthy]. rewrite number_truthy_div10 by assumption.
    now rewrite number_truthy_num_of_Z in Hv. }
  destruct p; cbn [opts_get] in Hget.
  - unfold stored. cbn [is_time property_eqb]. exact Hv.
  - unfold stored. cbn [is_time property_eqb]. now rewrite Hv.
  - unfold stored. cbn [is_time property_eqb]. exact Hv.
  - destruct (opt_slotTime opts) as [n|] eqn:E; [|discriminate].
    injection Hget as <-. now apply (Htime n).
  - destruct (opt_txDelay opts) as [n|] eqn:E; [|discriminate].
    injection Hget as <-. now apply (Htime n).
  - destruct (opt_txTail opts) as [n|] eqn:E; [|discriminate].
    injection Hget as <-. now apply (Htime n).
Qed.

(** X20. An option that is absent or falsy sends nothing: when a
    configuration field is not given, or is given as [false], 0, NaN or the
    empty string, no frame with the command byte of that field is pushed by
    the constructor. In particular [fullDuplex: false] and [persistence: 0]
    are never transmitted. *)
Theorem X20_falsy_option_sends_nothing
    (opts : senderOpts) (this : KISSSender) (p : property) :
  newSender opts = Ok this ->
  (forall v, opts_get opts p = Some v -> truthy v = false) ->
  forall f, In f (pushed this) ->
            at_ f 1 <> Some (commandByte (portIndex this) p).
Proof.
  intros Hnew Hfalsy f Hin Hat.
  destruct (pushed_frame_of_command opts this f p Hnew Hin Hat)
    as (v & Hget & Htruthy & _).
  rewrite (stored_falsy p v (Hfalsy v Hget)) in Htruthy.
  discriminate.
Qed.

Lemma X20_falsy_option_witness :
  exists this,
    newSender (mkSenderOpts (Some (num_of_Z 5)) (Some true) None
                 (Some (num_of_Z 0)) None None None) = Ok this
    /\ forall f, In f (pushed this) ->
                 at_ f 1 <> Some (commandByte (portIndex this) persistence).
Proof.
  set (opts := mkSenderOpts (Some (num_of_Z 5)) (Some true) None
                 (Some (num_of_Z 0)) None None None).
  assert (Hnew : exists this, newSender opts = Ok this)
    by (eexists; reflexivity).
  destruct Hnew as [this Hnew]. exists this. split; [exact Hnew|].
  apply (X20_falsy_option_sends_nothing opts this persistence Hnew).
  intros v Hget. injection Hget as <-. reflexivity.
Defined.

(** X21. A truthy [hardware] option is sent as it is: the frame is the
    marker, the hardware command byte of the port, the bytes of the string
    (or of the array of numbers) and the marker, with no escaping of these
    bytes, so that a 0xC0 in them stands in the frame unescaped. *)
Theorem X21_hardware_sent_unescaped
    (opts : senderOpts) (this : KISSSender) (v : value) :
  newSender opts = Ok this ->
  opts_get opts hardware = Some v ->
  truthy v = true ->
  In (FEND :: commandByte (portIndex this) hardware :: Buffer_from v ++ [FEND])
     (pushed this).
Proof.
  intros Hnew Hget Htruthy.
  apply (pushed_frames opts this _ Hnew). exists hardware, v.
  split; [exact Hget|].
  unfold stored. cbn [is_time property_eqb]. rewrite Htruthy.
  split; reflexivity.
Qed.

Lemma X21_hardware_witness :
  exists this,
    newSender (mkSenderOpts (Some (num_of_Z 1)) None
                 (Some (HardwareArray [num_of_Z 192; num_of_Z 300]))
                 None None None None) = Ok this
    /\ In (FEND :: commandByte (portIndex this) hardware
             :: Buffer_from (VArr [num_of_Z 192; num_of_Z 300]) ++ [FEND])
          (pushed this).
Proof.
  set (opts := mkSenderOpts (Some (num_of_Z 1)) None
                 (Some (HardwareArray [num_of_Z 192; num_of_Z 300]))
                 None None None None).
  assert (Hnew : exists this, newSender opts = Ok this)
    by (eexists; reflexivity).
  destruct Hnew as [this Hnew]. exists this. split; [exact Hnew|].
  apply (X21_hardware_sent_unescaped opts this
           (VArr [num_of_Z 192; num_of_Z 300]) Hnew);
    reflexivity.
Defined.

(** X22. [fullDuplex: true] is sent as the frame of the marker, the
    full-duplex command byte of the port, the byte 1 and the marker. *)
Theorem X22_fullDuplex_sent_as_one (opts : senderOpts) (this : KISSSender) :
  newSender opts = Ok this ->
  opt_fullDuplex opts = Some true ->
  In [FEND; commandByte (portIndex this) fullDuplex; x01; FEND] (pushed this).
Proof.
  intros Hnew Hfd.
  apply (pushed_frames opts this _ Hnew). exists fullDuplex, (VBool true).
  cbn [opts_get]. rewrite Hfd. repeat split.
Qed.

Lemma X22_fullDuplex_witness :
  exists this,
    newSender (mkSenderOpts (Some (num_of_Z 2)) (Some true) None None None
                 None None) = Ok this
    /\ In [FEND; commandByte (portIndex this) fullDuplex; x01; FEND]
          (pushed this).
Proof.
  set (opts := mkSenderOpts (Some (num_of_Z 2)) (Some true) None None None
                 None None).
  assert (Hnew : exists this, newSender opts = Ok this)
    by (eexists; reflexivity).
  destruct Hnew as [this Hnew]. exists this. split; [exact Hnew|].
  apply (X22_fullDuplex_sent_as_one opts this Hnew). reflexivity.
Defined.

(** ** Writes, the end of the stream, and the way to the receiver *)

Lemma sender_transform_fields (this : KISSSender) (c : chunk) :
  portIndex (sender_transform this c) = portIndex this
  /\ dataStart (sender_transform this c) = dataStart this
  /\ dataEnd (sender_transform this c) = dataEnd this.
Proof. repeat split. Qed.

Lemma sender_writes_pushed (chunks : list chunk) (this : KISSSender) (n : number) :
  dataStart this = [FEND; dataCommandByte n] ->
  dataEnd this = [FEND] ->
  pushed (sender_writes this chunks)
  = pushed this ++ map (fun c => dataFrame n (chunk_bytes c)) chunks.
Proof.
  revert this. induction chunks as [|c chunks IH]; intros this Hstart Hend.
  - cbn. now rewrite app_nil_r.
  - unfold sender_writes in *. cbn [fold_left map].
    rewrite IH by assumption.
    unfold sender_transform at 1, push. cbn [pushed].
    rewrite Hstart, Hend, kissEscape_spec, <- app_assoc. reflexivity.
Qed.

(** X23. A constructed sender that takes a sequence of writes and then
    reaches the end of its stream has pushed, after what it had pushed
    before, one data frame for each write, in the order of the writes and
    never merged, and last the frame [0xC0, 0xFF, 0xC0] that leaves KISS
    mode, which is the same for every port. *)
Theorem X23_writes_then_exit_frame (this : KISSSender) (chunks : list chunk) :
  constructed this ->
  pushed (sender_flush (sender_writes this chunks))
  = pushed this
    ++ map (fun c => dataFrame (portIndex this) (chunk_bytes c)) chunks
    ++ [[xc0; xff; xc0]].
Proof.
  intros Hc. destruct (constructed_fields this Hc) as (_ & Hstart & Hend).
  unfold sender_flush, push. cbn [pushed].
  rewrite (sender_writes_pushed chunks this (portIndex this) Hstart Hend).
  rewrite <- app_assoc. reflexivity.
Qed.

Lemma X23_writes_then_exit_witness :
  exists this,
    newSender (portOpts 7) = Ok this
    /\ pushed (sender_flush
                 (sender_writes this [ChunkString "a"; ChunkBuffer [xc0]]))
       = pushed this
         ++ map (fun c => dataFrame (portIndex this) (chunk_bytes c))
              [ChunkString "a"; ChunkBuffer [xc0]]
         ++ [[xc0; xff; xc0]].
Proof.
  assert (Hnew : exists this, newSender (portOpts 7) = Ok this)
    by (eexists; reflexivity).
  destruct Hnew as [this Hnew]. exists this. split; [exact Hnew|].
  apply (X23_writes_then_exit_frame this [ChunkString "a"; ChunkBuffer [xc0]]).
  exact (constructed_new (portOpts 7) this Hnew).
Defined.

Lemma dataCommandByte_port (p : Z) :
  (0 <= p <= 15)%Z ->
  (p <> 12%Z -> byte_of_Z (Z.lor (Z.shiftl p 4) 0) <> FEND)
  /\ (p = 12%Z -> byte_of_Z (Z.lor (Z.shiftl p 4) 0) = FEND)
  /\ N.shiftr (Byte.to_N (byte_of_Z (Z.lor (Z.shiftl p 4) 0))) 4 = Z.to_N p.
Proof.
  revert p. apply forall_port;
    (split; [intros H; try discriminate; now elim H
            | split; [intros H; try discriminate H; reflexivity
                     | reflexivity]]).
Qed.

(** X24. From the sender to the receiver: the data frame that a constructed
    sender of a port other than 12 pushes for a payload without escape
    marker 0xDB, received in one chunk by a new receiver, is emitted as
    exactly one message and nothing stays buffered: the record of the
    sender's port and the payload in object mode, the command byte and the
    payload with [emitCommandByte], the payload alone by default. *)
Theorem X24_sender_to_receiver
    (this : KISSSender) (c : chunk) (ro : receiverOpts) :
  constructed this ->
  portIndex_Z (portIndex this) <> 12%Z ->
  ~ In FESC (chunk_bytes c) ->
  pushed (sender_transform this c)
  = pushed this ++ [dataFrame (portIndex this) (chunk_bytes c)]
  /\ receiver_transform (newReceiver ro)
       (dataFrame (portIndex this) (chunk_bytes c))
     = (newReceiver ro,
        [if opt_emitObject ro then
           EmitObject (Z.to_N (portIndex_Z (portIndex this))) (chunk_bytes c)
         else if opt_emitCommandByte ro then
           EmitBuffer (dataCommandByte (portIndex this) :: chunk_bytes c)
         else EmitBuffer (chunk_bytes c)]).
Proof.
  intros Hc Hport Hesc.
  destruct (constructed_fields this Hc) as (Hv & Hstart & Hend).
  apply valid_portIndex_range in Hv.
  destruct (dataCommandByte_port _ Hv) as (Hne & _ & Hshift).
  specialize (Hne Hport). fold (dataCommandByte (portIndex this)) in Hne, Hshift.
  split.
  - unfold sender_transform, push, dataFrame. cbn [pushed].
    now rewrite Hstart, Hend, kissEscape_spec.
  - unfold dataFrame.
    change ([FEND; dataCommandByte (portIndex this)]
              ++ escape (chunk_bytes c) ++ [FEND])
      with (FEND :: (dataCommandByte (portIndex this) :: escape (chunk_bytes c))
              ++ [FEND]).
    rewrite receiver_transform_frame.
    + unfold interpretMessage, newReceiver.
      cbn [readableObjectMode emitCommandByte hd_error tl shr4 withCommandByte].
      rewrite unescape_escape_without_FESC by assumption.
      now rewrite Hshift.
    + reflexivity.
    + discriminate.
    + intros [H|H]; [congruence|]. now apply escape_no_FEND in H.
Qed.

Lemma X24_sender_to_receiver_witness :
  exists this,
    newSender (portOpts 10) = Ok this
    /\ pushed (sender_transform this (ChunkBuffer [x68; xc0; x69]))
       = pushed this ++ [dataFrame (portIndex this) [x68; xc0; x69]]
    /\ receiver_transform (newReceiver (mkReceiverOpts false true))
         (dataFrame (portIndex this) [x68; xc0; x69])
       = (newReceiver (mkReceiverOpts false true),
          [EmitObject (Z.to_N (portIndex_Z (portIndex this))) [x68; xc0; x69]]).
Proof.
  assert (Hnew : exists this, newSender (portOpts 10) = Ok this
                              /\ portIndex this = num_of_Z 10)
    by (eexists; split; reflexivity).
  destruct Hnew as (this & Hnew & Hidx). exists this. split; [exact Hnew|].
  apply (X24_sender_to_receiver this (ChunkBuffer [x68; xc0; x69])
           (mkReceiverOpts false true)).
  - exact (constructed_new (portOpts 10) this Hnew).
  - rewrite Hidx. discriminate.
  - intros H; simpl in H.
    repeat (destruct H as [H|H]; [discriminate H|]). exact H.
Defined.

(** X25. For port 12 the data command byte is 0xC0, the boundary marker
    itself: the receiver takes the two markers at the head of the frame for
    an empty run and the first byte of the payload for the command byte. A
    payload that starts with a byte that is not reserved and holds no 0xDB
    is emitted, by default, without its first byte. *)
Theorem X25_port_12_loses_first_byte
    (this : KISSSender) (x : byte) (rest : list byte) :
  constructed this ->
  portIndex_Z (portIndex this) = 12%Z ->
  reserved x = false ->
  ~ In FESC rest ->
  dataCommandByte (portIndex this) = FEND
  /\ receiver_transform defaultReceiver (dataFrame (portIndex this) (x :: rest))
     = (defaultReceiver, [EmitBuffer rest]).
Proof.
  intros Hc Hport Hx Hesc.
  destruct (constructed_fields this Hc) as (Hv & _).
  apply valid_portIndex_range in Hv.
  destruct (dataCommandByte_port _ Hv) as (_ & Heq & _).
  specialize (Heq Hport). fold (dataCommandByte (portIndex this)) in Heq.
  split; [exact Heq|].
  unfold dataFrame. rewrite Heq.
  unfold reserved in Hx. apply orb_false_iff in Hx. destruct Hx as [Hx1 Hx2].
  assert (Hescape : escape (x :: rest) = x :: escape rest).
  { unfold escape. cbn [flat_map]. unfold escape_byte. now rewrite Hx1, Hx2. }
  rewrite Hescape.
  change ([FEND; FEND] ++ (x :: escape rest) ++ [FEND])
    with (repeat FEND 1 ++ (FEND :: (x :: escape rest) ++ [FEND])).
  rewrite receiver_transform_leading_markers by reflexivity.
  rewrite receiver_transform_frame.
  - unfold interpretMessage, defaultReceiver, newReceiver.
    cbn [readableObjectMode emitCommandByte opt_emitObject
           opt_emitCommandByte hd_error tl].
    now rewrite unescape_escape_without_FESC.
  - reflexivity.
  - discriminate.
  - intros [H|H].
    + subst x. discriminate Hx1.
    + now apply escape_no_FEND in H.
Qed.

Lemma X25_port_12_witness :
  exists this,
    newSender (portOpts 12) = Ok this
    /\ dataCommandByte (portIndex this) = FEND
    /\ receiver_transform defaultReceiver
         (dataFrame (portIndex this) (x68 :: [x69; x21]))
       = (defaultReceiver, [EmitBuffer [x69; x21]]).
Proof.
  assert (Hnew : exists this, newSender (portOpts 12) = Ok this
                              /\ portIndex this = num_of_Z 12)
    by (eexists; split; reflexivity).
  destruct Hnew as (this & Hnew & Hidx). exists this. split; [exact Hnew|].
  apply (X25_port_12_loses_first_byte this x68 [x69; x21]).
  - exact (constructed_new (portOpts 12) this Hnew).
  - rewrite Hidx. reflexivity.
  - reflexivity.
  - intros H; simpl in H.
    repeat (destruct H as [H|H]; [discriminate H|]). exact H.
Defined.

(** ** The command builder *)

(** X26. For a port index in 0..15, [getCommandBuilder] frames a value
    between two markers behind a command byte whose value is 16 times the
    port plus the kind of the command (1 TX delay, 2 persistence, 3 slot
    time, 4 TX tail, 5 full duplex, 6 hardware): the hexadecimal string that
    the code parses is the port nibble followed by the kind nibble. A Buffer
    value gives its bytes, any other value one byte. *)
Theorem X26_command_frame_of_valid_port
    (n : number) (command : property) (v : value) :
  valid_portIndex n = true ->
  exists cmd,
    getCommandBuilder n command v = FEND :: cmd :: value_bytes v ++ [FEND]
    /\ Z.of_N (Byte.to_N cmd) = (16 * portIndex_Z n + commandKind command)%Z.
Proof.
  intros Hv. exists (commandByte n command). split.
  - now apply getCommandBuilder_valid.
  - unfold commandByte. apply valid_portIndex_range in Hv.
    pose proof (commandKind_range command) as Hk.
    rewrite shiftl_lor_port by assumption.
    rewrite byte_of_Z_to_N. apply Z.mod_small. lia.
Qed.

Lemma X26_command_frame_witness :
  exists cmd,
    getCommandBuilder (num_of_Z 9) txTail (VNum (num_of_Z 7))
    = FEND :: cmd :: value_bytes (VNum (num_of_Z 7)) ++ [FEND]
    /\ Z.of_N (Byte.to_N cmd) = (16 * portIndex_Z (num_of_Z 9) + commandKind txTail)%Z.
Proof.
  apply (X26_command_frame_of_valid_port (num_of_Z 9) txTail (VNum (num_of_Z 7))).
  reflexivity.
Defined.

Lemma ports_get_beyond (i : nat) : 16 <= i -> String.get i ports = None.
Proof.
  intros Hi. do 16 (destruct i as [|i]; [lia|]). now destruct i.
Qed.

Lemma ports_at_invalid (n : number) :
  valid_portIndex n = false -> ports_at n = None.
Proof.
  unfold valid_portIndex, ports_at. destruct n as [q| |neg]; try reflexivity.
  destruct (Number_isInteger (Num q)) eqn:Hint; [|reflexivity].
  cbn [andb]. rewrite negb_false_iff.
  destruct (number_lt (Num q) (num_of_Z 0)) eqn:Hneg; [reflexivity|].
  cbn [orb negb]. intros H15. apply ports_get_beyond.
  simpl in Hint, H15. apply Z.eqb_eq in Hint.
  apply negb_true_iff in H15.
  assert (Hle : ~ (q <= inject_Z 15)%Q)
    by (intros Hq; apply Qle_bool_iff in Hq; congruence).
  unfold Qle in Hle. simpl in Hle.
  pose proof (Z.div_mod (Qnum q) (Zpos (Qden q)) ltac:(lia)) as Hdiv.
  rewrite Hint in Hdiv.
  assert (16 <= Qnum q / Zpos (Qden q))%Z by nia. lia.
Qed.

(** X27. For a port index that is not an integer of 0..15,
    [getCommandBuilder] finds no port digit, [parseInt] gives NaN, and the
    command byte of every frame it builds is 0. *)
Theorem X27_command_byte_of_invalid_port
    (n : number) (command : property) (v : value) :
  valid_portIndex n = false ->
  getCommandBuilder n command v = FEND :: x00 :: value_bytes v ++ [FEND].
Proof.
  intros Hv. rewrite getCommandBuilder_frame, (ports_at_invalid n Hv).
  now destruct command.
Qed.

Lemma X27_command_byte_witness :
  getCommandBuilder (num_of_Z 16) slotTime (VNum (num_of_Z 42))
  = FEND :: x00 :: value_bytes (VNum (num_of_Z 42)) ++ [FEND].
Proof.
  apply (X27_command_byte_of_invalid_port (num_of_Z 16) slotTime
           (VNum (num_of_Z 42))).
  reflexivity.
Defined.

(** ** The order of the initialization frames *)

Lemma initFrame_command (opts : senderOpts) (n : number) (p : property) :
  (forall t m, timeField opts t = Some m ->
               exists z, m = num_of_Z z /\ safe_integer z) ->
  valid_portIndex n = true ->
  map (fun f => at_ f 1) (initFrame opts (getCommandBuilder n) p)
  = if match opts_get opts p with
       | Some v => truthy v
       | None => false
       end
    then [Some (commandByte n p)] else [].
Proof.
  intros Hsafe Hv. unfold initFrame.
  destruct (opts_get opts p) as [v|] eqn:Hget; [|reflexivity].
  rewrite (truthy_stored_safe opts p v Hsafe Hget).
  destruct (truthy v); [|reflexivity].
  now rewrite getCommandBuilder_valid.
Qed.

(** X28. When the times given ([slotTime], [txDelay], [txTail]) are
    integers of magnitude below 2^53, the constructor pushes its
    initialization frames in the fixed order full duplex, hardware,
    persistence, slot time, TX delay, TX tail, one for each of these options
    that is present and truthy and none for the others: the command bytes of
    the frames pushed are, in order, those of the truthy options. *)
Theorem X28_initialization_order (opts : senderOpts) (this : KISSSender) :
  newSender opts = Ok this ->
  (forall t n, timeField opts t = Some n ->
               exists v, n = num_of_Z v /\ safe_integer v) ->
  map (fun f => at_ f 1) (pushed this)
  = map (fun p => Some (commandByte (portIndex this) p))
      (filter (fun p => match opts_get opts p with
                        | Some v => truthy v
                        | None => false
                        end)
         [fullDuplex; hardware; persistence; slotTime; txDelay; txTail]).
Proof.
  intros Hnew Hsafe.
  destruct (newSender_Ok opts this Hnew) as (Hv & _ & _ & _ & ->).
  fold properties. induction properties as [|p ps IH]; [reflexivity|].
  cbn [flat_map filter]. rewrite map_app, IH, initFrame_command by assumption.
  destruct (match opts_get opts p with Some v => truthy v | None => false end);
    reflexivity.
Qed.

Lemma X28_initialization_order_witness :
  exists this,
    newSender (mkSenderOpts (Some (num_of_Z 4)) (Some false) None
                 (Some (num_of_Z 255)) None (Some (num_of_Z 30))
                 (Some (num_of_Z 0))) = Ok this
    /\ map (fun f => at_ f 1) (pushed this)
       = map (fun p => Some (commandByte (portIndex this) p))
           [persistence; txDelay].
Proof.
  set (opts := mkSenderOpts (Some (num_of_Z 4)) (Some false) None
                 (Some (num_of_Z 255)) None (Some (num_of_Z 30))
                 (Some (num_of_Z 0))).
  assert (Hnew : exists this, newSender opts = Ok this)
    by (eexists; reflexivity).
  destruct Hnew as [this Hnew]. exists this. split; [exact Hnew|].
  apply (X28_initialization_order opts this Hnew).
  intros t n Hfield. destruct t; try discriminate Hfield.
  - exists 30%Z. split; [now injection Hfield as <- | split; reflexivity].
  - exists 0%Z. split; [now injection Hfield as <- | split; reflexivity].
Defined.

(** ** Streams of frames *)

(** X29. The data frames that a constructed sender of a port other than 12
    pushes for a sequence of payloads without escape marker 0xDB, received
    end to end in one chunk by a receiver with the default options, are
    emitted as the payloads, one message each, in order, and nothing stays
    buffered. *)
Theorem X29_stream_of_data_frames (this : KISSSender) (chunks : list chunk) :
  constructed this ->
  portIndex_Z (portIndex this) <> 12%Z ->
  Forall (fun c => ~ In FESC (chunk_bytes c)) chunks ->
  receiver_transform defaultReceiver
    (concat (map (fun c => dataFrame (portIndex this) (chunk_bytes c)) chunks))
  = (defaultReceiver, map (fun c => EmitBuffer (chunk_bytes c)) chunks).
Proof.
  intros Hc Hport Hesc.
  destruct (constructed_fields this Hc) as (Hv & _).
  apply valid_portIndex_range in Hv.
  destruct (dataCommandByte_port _ Hv) as (Hne & _).
  specialize (Hne Hport). fold (dataCommandByte (portIndex this)) in Hne.
  set (frame := fun c => dataCommandByte (portIndex this)
                           :: escape (chunk_bytes c)).
  assert (Hchunk :
            concat (map (fun c => dataFrame (portIndex this) (chunk_bytes c))
                      chunks)
            = concat (map (fun m => FEND :: m ++ [FEND]) (map frame chunks))).
  { rewrite map_map. reflexivity. }
  rewrite Hchunk. clear Hchunk.
  unfold receiver_transform, defaultReceiver, newReceiver.
  cbn [unterminatedMessage readableObjectMode emitCommandByte
         opt_emitObject opt_emitCommandByte].
  rewrite transform_start_None. cbn [fst snd].
  rewrite transform_loop_frames.
  - cbn [length Nat.ltb Nat.leb app]. f_equal. rewrite map_map.
    induction Hesc as [|c cs Hc0 _ IH]; [reflexivity|].
    cbn [map]. rewrite IH. f_equal.
    unfold interpretMessage, frame.
    cbn [readableObjectMode emitCommandByte hd_error tl].
    now rewrite unescape_escape_without_FESC.
  - apply Forall_map. apply Forall_forall. intros c _. unfold frame.
    split; [discriminate|].
    intros [H|H]; [congruence | now apply escape_no_FEND in H].
Qed.

Lemma X29_stream_of_data_frames_witness :
  exists this,
    newSender (portOpts 3) = Ok this
    /\ receiver_transform defaultReceiver
         (concat (map (fun c => dataFrame (portIndex this) (chunk_bytes c))
                    [ChunkString "ab"; ChunkBuffer [xc0]]))
       = (defaultReceiver,
          map (fun c => EmitBuffer (chunk_bytes c))
            [ChunkString "ab"; ChunkBuffer [xc0]]).
Proof.
  assert (Hnew : exists this, newSender (portOpts 3) = Ok this
                              /\ portIndex this = num_of_Z 3)
    by (eexists; split; reflexivity).
  destruct Hnew as (this & Hnew & Hidx). exists this. split; [exact Hnew|].
  apply (X29_stream_of_data_frames this [ChunkString "ab"; ChunkBuffer [xc0]]).
  - exact (constructed_new (portOpts 3) this Hnew).
  - rewrite Hidx. discriminate.
  - repeat constructor; intros H; simpl in H;
      repeat (destruct H as [H|H]; [discriminate H|]); exact H.
Defined.

(** X30. Where a chunk is cut directly after a boundary marker, the cut
    does not show: the two chunks one after the other leave the receiver in
    the same state and emit the same messages as the uncut chunk, from any
    state of the receiver. *)
Theorem X30_cut_after_marker (this : KISSReceiver) (c1 c2 : list byte) :
  feed this [c1 ++ [FEND]; c2] = feed this [c1 ++ FEND :: c2].
Proof. apply feed_split_after_marker. Qed.
